(** * Story-retrieval bot ([main.py]): a shallow embedding and its properties

    The development follows the layers of [main.py]:

    - [PyStr], [Urllib], [Base64]: the Python string methods and the standard
      library functions ([urllib.parse], [base64]) that the program calls;
    - link normalisation and validation: [extract_real_url],
      [extract_instasaved_url], [validate_url_format], [validate_links],
      [get_clean_id];
    - the health tracker kept in [failure_tracker.json]: [track_failure],
      [get_consecutive_fails], [get_adaptive_timeout], [cleanup_old_logs];
    - the source adapters [check_mollygram], [check_storiesviewer],
      [check_instasaved], [check_iqsaved], with [retry_storiesviewer] and the
      [safe_check_*] wrappers;
    - the retry executor [retry_with_backoff];
    - the main function [run].

    Conventions.  A Python [str] is a [string] (a sequence of bytes); the
    model is exact on ASCII text, which is what the URLs, ids and status
    codes of this program are made of.  Python integers are [Z], a [dict]
    with string keys is a [gmap string], a [set] of strings a [gset string].
    What a web page shows to an adapter is an input of the model (see
    [Browser]).  A Python exception is a value [Raise e] of [Outcome]; the
    state reached when it is raised is kept, as in Python.  The calls of
    [run] to the outside (invocations through the retry executor, its
    pauses, messages to Telegram) are recorded, in order, in the [trace] of
    the [World].

    Not modelled: console output, the phone and performance logs, the debug
    placeholders and the backups of the ledger (none of them writes a file
    that the program reads back), the pauses inside the adapters and
    between two deliveries.  Operations on local files are assumed not to
    fail. *)

From Stdlib Require Import ZArith Ascii String List Bool Lia DecimalString.
From Stdlib Require Import Sorted Permutation.
From stdpp Require Import gmap strings list fin_maps mapset.

Local Open Scope string_scope.
Local Open Scope Z_scope.

(* ===================================================================== *)
(** ** Python string methods *)
(* ===================================================================== *)

Module PyStr.

(** [len(s) > 0], the truth value of a string. *)
Definition truthy (s : string) : bool :=
  match s with EmptyString => false | String _ _ => true end.

Definition len (s : string) : Z := Z.of_nat (String.length s).

(** [s.startswith(p)] *)
Fixpoint startswith (s p : string) : bool :=
  match p, s with
  | EmptyString, _ => true
  | String _ _, EmptyString => false
  | String a p', String b s' => Ascii.eqb a b && startswith s' p'
  end.

(** [sub in s] *)
Fixpoint contains (s sub : string) : bool :=
  startswith s sub
  || match s with
     | EmptyString => false
     | String _ s' => contains s' sub
     end.

(** [s[n:]] and [s[:n]] for [n >= 0] *)
Fixpoint drop (n : nat) (s : string) : string :=
  match n, s with
  | O, _ => s
  | S _, EmptyString => EmptyString
  | S k, String _ s' => drop k s'
  end.

Fixpoint take (n : nat) (s : string) : string :=
  match n, s with
  | O, _ => EmptyString
  | S _, EmptyString => EmptyString
  | S k, String c s' => String c (take k s')
  end.

(** [s[-n:]]: the last [n] characters, the whole string when it is shorter *)
Definition suffix (n : nat) (s : string) : string :=
  drop (String.length s - n) s.

(** [s.split(sep)] for a non-empty separator: the first piece and the
    remaining ones.  [skip] counts the characters of a matched separator
    that are still to be passed over. *)
Fixpoint split_from (sep : string) (skip : nat) (s : string)
  : string * list string :=
  match s with
  | EmptyString => (EmptyString, [])
  | String c s' =>
      match skip with
      | S k => split_from sep k s'
      | O =>
          if startswith s sep
          then (EmptyString,
                let '(h, t) := split_from sep (String.length sep - 1) s' in
                h :: t)
          else let '(h, t) := split_from sep 0 s' in (String c h, t)
      end
  end.

Definition split (s sep : string) : list string :=
  let '(h, t) := split_from sep 0 s in h :: t.

(** [s.split(sep)[0]], [s.split(sep)[-1]] and [s.split(sep)[1]]; the last
    one raises [IndexError] (here [None]) when [sep] does not occur. *)
Definition split_first (s sep : string) : string :=
  fst (split_from sep 0 s).

Definition split_last (s sep : string) : string :=
  let '(h, t) := split_from sep 0 s in List.last t h.

Definition split_second (s sep : string) : option string :=
  List.hd_error (snd (split_from sep 0 s)).

(** [s.split(sep, 1)]: the text before the first separator and, when the
    separator occurs, the text after it. *)
Fixpoint split_once (sep : string) (s : string) : string * option string :=
  match s with
  | EmptyString => (EmptyString, None)
  | String c s' =>
      if startswith s sep
      then (EmptyString, Some (drop (String.length sep) s))
      else let '(h, r) := split_once sep s' in (String c h, r)
  end.

(** [str.isspace] on ASCII: TAB..CR, FS..US and the space. *)
Definition is_space (c : ascii) : bool :=
  let n := N_of_ascii c in
  ((9 <=? n) && (n <=? 13) || (28 <=? n) && (n <=? 32))%N.

Fixpoint lstrip (s : string) : string :=
  match s with
  | EmptyString => EmptyString
  | String c s' => if is_space c then lstrip s' else s
  end.

Fixpoint rstrip (s : string) : string :=
  match s with
  | EmptyString => EmptyString
  | String c s' =>
      match rstrip s' with
      | EmptyString => if is_space c then EmptyString else String c EmptyString
      | r => String c r
      end
  end.

(** [s.strip()] *)
Definition strip (s : string) : string := rstrip (lstrip s).

Definition lower_char (c : ascii) : ascii :=
  let n := N_of_ascii c in
  if ((65 <=? n) && (n <=? 90))%N then ascii_of_N (n + 32) else c.

(** [s.lower()] *)
Fixpoint lower (s : string) : string :=
  match s with
  | EmptyString => EmptyString
  | String c s' => String (lower_char c) (lower s')
  end.

(** [s.replace(a, b)] for single characters *)
Fixpoint replace_char (a b : ascii) (s : string) : string :=
  match s with
  | EmptyString => EmptyString
  | String c s' =>
      String (if Ascii.eqb c a then b else c) (replace_char a b s')
  end.

Fixpoint take_while (p : ascii -> bool) (s : string) : string :=
  match s with
  | EmptyString => EmptyString
  | String c s' => if p c then String c (take_while p s') else EmptyString
  end.

Fixpoint drop_while (p : ascii -> bool) (s : string) : string :=
  match s with
  | EmptyString => EmptyString
  | String c s' => if p c then drop_while p s' else s
  end.

Fixpoint filter_chars (p : ascii -> bool) (s : string) : string :=
  match s with
  | EmptyString => EmptyString
  | String c s' =>
      if p c then String c (filter_chars p s') else filter_chars p s'
  end.

Fixpoint all_chars (p : ascii -> bool) (s : string) : bool :=
  match s with
  | EmptyString => true
  | String c s' => p c && all_chars p s'
  end.

(** ["=" * n] and friends *)
Fixpoint repeat_char (c : ascii) (n : nat) : string :=
  match n with
  | O => EmptyString
  | S k => String c (repeat_char c k)
  end.

End PyStr.

(* ===================================================================== *)
(** ** [urllib.parse]: [unquote], [urlparse], [parse_qs] *)
(* ===================================================================== *)

Module Urllib.
Import PyStr.

Definition hexval (c : ascii) : option N :=
  let n := N_of_ascii c in
  if ((48 <=? n) && (n <=? 57))%N then Some (n - 48)%N
  else if ((65 <=? n) && (n <=? 70))%N then Some (n - 55)%N
  else if ((97 <=? n) && (n <=? 102))%N then Some (n - 87)%N
  else None.

(** [unquote(s)]: every [%XY] with two hexadecimal digits becomes the byte
    [XY]; a [%] that is not followed by two hexadecimal digits stays.
    The decoded bytes are kept as they are (Python decodes them as UTF-8
    and replaces ill-formed sequences). *)
Fixpoint unquote (s : string) : string :=
  match s with
  | EmptyString => EmptyString
  | String c rest =>
      if Ascii.eqb c "%"
      then match rest with
           | String a (String b r) =>
               match hexval a, hexval b with
               | Some x, Some y => String (ascii_of_N (16 * x + y)) (unquote r)
               | _, _ => String c (unquote rest)
               end
           | _ => String c (unquote rest)
           end
      else String c (unquote rest)
  end.

(** The fields of [urlparse(url)] that the program reads, and the path
    (with its parameters). *)
Record ParseResult := {
  scheme : string;
  netloc : string;
  path : string;
  query : string;
  fragment : string
}.

Definition is_alpha (c : ascii) : bool :=
  let n := N_of_ascii c in
  ((65 <=? n) && (n <=? 90) || (97 <=? n) && (n <=? 122))%N.

Definition is_digit (c : ascii) : bool :=
  let n := N_of_ascii c in ((48 <=? n) && (n <=? 57))%N.

(** [scheme_chars]: letters, digits and [+-.] *)
Definition scheme_char (c : ascii) : bool :=
  is_alpha c || is_digit c
  || Ascii.eqb c "+" || Ascii.eqb c "-" || Ascii.eqb c ".".

(** leading C0 control characters and spaces are stripped *)
Definition c0_or_space (c : ascii) : bool := (N_of_ascii c <=? 32)%N.

(** TAB, CR and LF are removed wherever they are *)
Definition unsafe_byte (c : ascii) : bool :=
  Ascii.eqb c "009" || Ascii.eqb c "013" || Ascii.eqb c "010".

Definition netloc_end (c : ascii) : bool :=
  Ascii.eqb c "/" || Ascii.eqb c "?" || Ascii.eqb c "#".

(** [urlparse(url)], as [urllib.parse] of Python 3.11 does it on ASCII
    text; [None] is the [ValueError] raised for a host with an unmatched
    square bracket (the content of a bracketed host is not inspected). *)
Definition urlparse (url0 : string) : option ParseResult :=
  let url := drop_while c0_or_space url0 in
  let url := filter_chars (fun c => negb (unsafe_byte c)) url in
  let '(sch, url) :=
    match split_once ":" url with
    | (before, Some after) =>
        match before with
        | String c0 _ =>
            if is_alpha c0 && all_chars scheme_char before
            then (lower before, after)
            else (EmptyString, url)
        | EmptyString => (EmptyString, url)
        end
    | (_, None) => (EmptyString, url)
    end in
  let '(loc, url) :=
    if startswith url "//"
    then let rest := drop 2 url in
         (take_while (fun c => negb (netloc_end c)) rest,
          drop_while (fun c => negb (netloc_end c)) rest)
    else (EmptyString, url) in
  if xorb (contains loc "[") (contains loc "]") then None
  else
    let '(url, frag) :=
      match split_once "#" url with
      | (before, Some after) => (before, after)
      | (_, None) => (url, EmptyString)
      end in
    let '(url, qs) :=
      match split_once "?" url with
      | (before, Some after) => (before, after)
      | (_, None) => (url, EmptyString)
      end in
    Some {| scheme := sch; netloc := loc; path := url;
            query := qs; fragment := frag |}.

(** [parse_qs(qs)]: the fields are separated by [&]; a field without [=]
    or with an empty value is dropped; [+] stands for a space; names and
    values are percent-decoded; the values of a name are kept in order. *)
Definition parse_field (nv : string) : option (string * string) :=
  match split_once "=" nv with
  | (name, Some value) =>
      if truthy value
      then Some (unquote (replace_char "+" " " name),
                 unquote (replace_char "+" " " value))
      else None
  | (_, None) => None
  end.

Definition add_field (d : gmap string (list string)) (nv : string)
  : gmap string (list string) :=
  match parse_field nv with
  | Some (name, value) =>
      match d !! name with
      | Some vs => <[name := (vs ++ [value])%list]> d
      | None => <[name := [value]]> d
      end
  | None => d
  end.

Definition parse_qs (qs : string) : gmap string (list string) :=
  fold_left add_field (split qs "&") ∅.

(** [d[name][0]] when [name in d] *)
Definition first_value (d : gmap string (list string)) (name : string)
  : option string :=
  match d !! name with
  | Some (v :: _) => Some v
  | _ => None
  end.

End Urllib.

(* ===================================================================== *)
(** ** [base64.b64decode] and [bytes.decode('utf-8')] *)
(* ===================================================================== *)

Module Base64.
Import PyStr.

Definition b64val (c : ascii) : option N :=
  let n := N_of_ascii c in
  if ((65 <=? n) && (n <=? 90))%N then Some (n - 65)%N
  else if ((97 <=? n) && (n <=? 122))%N then Some (n - 71)%N
  else if ((48 <=? n) && (n <=? 57))%N then Some (n + 4)%N
  else if (n =? 43)%N then Some 62%N
  else if (n =? 47)%N then Some 63%N
  else None.

Definition byte_of (n : N) : ascii := ascii_of_N (n mod 256).

(** The decoding loop of [binascii.a2b_base64] (not strict): characters
    outside the alphabet are skipped, a pad sequence that completes the
    current quad ends the decoding, and an incomplete quad at the end of
    the input is an error ([None]). *)
Fixpoint a2b_base64 (quad_pos : nat) (leftchar : N) (pads : nat)
  (s : string) : option string :=
  match s with
  | EmptyString =>
      match quad_pos with O => Some EmptyString | S _ => None end
  | String c s' =>
      if Ascii.eqb c "="
      then
        if (2 <=? quad_pos)%nat
        then if (4 <=? quad_pos + S pads)%nat
             then Some EmptyString
             else a2b_base64 quad_pos leftchar (S pads) s'
        else a2b_base64 quad_pos leftchar pads s'
      else
        match b64val c with
        | None => a2b_base64 quad_pos leftchar pads s'
        | Some v =>
            match quad_pos with
            | 0%nat => a2b_base64 1 v 0 s'
            | 1%nat =>
                option_map
                  (String (byte_of (N.lor (N.shiftl leftchar 2) (N.shiftr v 4))))
                  (a2b_base64 2 (N.land v 15) 0 s')
            | 2%nat =>
                option_map
                  (String (byte_of (N.lor (N.shiftl leftchar 4) (N.shiftr v 2))))
                  (a2b_base64 3 (N.land v 3) 0 s')
            | _ =>
                option_map
                  (String (byte_of (N.lor (N.shiftl leftchar 6) v)))
                  (a2b_base64 0 0 0 s')
            end
        end
  end.

Definition is_ascii (c : ascii) : bool := (N_of_ascii c <? 128)%N.

(** [base64.b64decode(s)] for a [str] argument: the text is first encoded
    as ASCII, which fails on any other character. *)
Definition b64decode (s : string) : option string :=
  if all_chars is_ascii s then a2b_base64 0 0 0 s else None.

(** Well-formed UTF-8: the ranges allowed for the bytes that follow a
    lead byte. *)
Definition utf8_lead (n : N) : option (list (N * N)) :=
  if (n <=? 127)%N then Some []
  else if ((194 <=? n) && (n <=? 223))%N then Some [(128, 191)]%N
  else if (n =? 224)%N then Some [(160, 191); (128, 191)]%N
  else if (n =? 237)%N then Some [(128, 159); (128, 191)]%N
  else if ((225 <=? n) && (n <=? 239))%N then Some [(128, 191); (128, 191)]%N
  else if (n =? 240)%N then Some [(144, 191); (128, 191); (128, 191)]%N
  else if ((241 <=? n) && (n <=? 243))%N
       then Some [(128, 191); (128, 191); (128, 191)]%N
  else if (n =? 244)%N then Some [(128, 143); (128, 191); (128, 191)]%N
  else None.

Fixpoint utf8_scan (pending : list (N * N)) (s : string) : bool :=
  match s with
  | EmptyString => match pending with [] => true | _ :: _ => false end
  | String c s' =>
      let n := N_of_ascii c in
      match pending with
      | (lo, hi) :: p' => (lo <=? n)%N && (n <=? hi)%N && utf8_scan p' s'
      | [] =>
          match utf8_lead n with
          | Some p => utf8_scan p s'
          | None => false
          end
      end
  end.

(** [b.decode('utf-8')]: the same bytes when they are well-formed UTF-8,
    [UnicodeDecodeError] ([None]) otherwise. *)
Definition decode_utf8 (b : string) : option string :=
  if utf8_scan [] b then Some b else None.

End Base64.

(* ===================================================================== *)
(** ** Link normaliser, validator and clean ids *)
(* ===================================================================== *)

Import PyStr Urllib.

(** [extract_real_url]: the [url] query parameter of an [img2.php?url=] link,
    percent-decoded twice more, or the [filename=] parameter decoded once;
    any other link, and any link on which parsing fails, is returned as it
    is. *)
Definition extract_real_url (iqsaved_url : string) : string :=
  if contains iqsaved_url "img2.php?url=" then
    match urlparse iqsaved_url with
    | None => iqsaved_url
    | Some parsed =>
        match first_value (parse_qs (query parsed)) "url" with
        | Some real_url => unquote (unquote real_url)
        | None => iqsaved_url
        end
    end
  else if contains iqsaved_url "filename=" then
    match split_second iqsaved_url "filename=" with
    | Some after => unquote (split_first after "&")
    | None => iqsaved_url
    end
  else iqsaved_url.

Definition b64_marker : string := "aHR0cHM6Ly".

Definition b64_body_char (c : ascii) : bool :=
  negb (Ascii.eqb c "&") && negb (is_space c).

(** [re.search(r'(aHR0cHM6Ly[^&\s]+)', s)]: the leftmost place where the
    marker is followed by at least one character that is neither [&] nor
    white space, with all such characters that follow. *)
Fixpoint search_b64 (s : string) : option string :=
  match s with
  | EmptyString => None
  | String _ s' =>
      let body :=
        take_while b64_body_char (drop (String.length b64_marker) s) in
      if startswith s b64_marker && truthy body
      then Some (b64_marker ++ body)
      else search_b64 s'
  end.

(** The base64 text that [extract_instasaved_url] finds in the decoded
    [file] parameter: after [/], after [?], or anywhere. *)
Definition find_base64 (file_decoded : string) : option string :=
  if contains file_decoded ("/" ++ b64_marker) then
    match split_second file_decoded ("/" ++ b64_marker) with
    | Some part =>
        Some (b64_marker ++ split_first (split_first part "?") "&")
    | None => None
    end
  else if contains file_decoded ("?" ++ b64_marker) then
    match split_second file_decoded ("?" ++ b64_marker) with
    | Some part => Some (b64_marker ++ split_first part "&")
    | None => None
    end
  else search_b64 file_decoded.

(** [=] padding up to a length that is a multiple of 4 *)
Definition pad_base64 (s : string) : string :=
  let missing_padding := (String.length s mod 4)%nat in
  match missing_padding with
  | O => s
  | S _ => s ++ repeat_char "=" (4 - missing_padding)
  end.

(** [extract_instasaved_url]: the URL hidden, in base64, in the [file]
    parameter; the input itself when there is none or decoding fails. *)
Definition extract_instasaved_url (instasaved_url : string) : string :=
  let decoded_once := unquote instasaved_url in
  if contains decoded_once "file=" then
    match split_second decoded_once "file=" with
    | None => instasaved_url
    | Some after =>
        let file_decoded := unquote (split_first after "&") in
        match find_base64 file_decoded with
        | None => instasaved_url
        | Some base64_string =>
            match Base64.b64decode (pad_base64 base64_string) with
            | None => instasaved_url
            | Some decoded_bytes =>
                match Base64.decode_utf8 decoded_bytes with
                | Some instagram_url => instagram_url
                | None => instasaved_url
                end
            end
        end
    end
  else instasaved_url.

(** [validate_url_format]: a scheme, a host and at least 10 characters *)
Definition validate_url_format (url : string) : bool :=
  match urlparse url with
  | Some parsed =>
      truthy (scheme parsed) && truthy (netloc parsed) && (10 <=? len url)
  | None => false
  end.

Definition instagram_patterns : list string :=
  [ "cdninstagram.com"; "scontent.cdninstagram.com"; "fbcdn.net";
    "instagram.f"; "instagram.com"; "scontent-";
    ".mp4"; ".jpg"; ".jpeg"; ".png"; ".webp" ].

(** A proxy link is replaced by what its decoder yields, and dropped when
    the decoder yields nothing new or nothing URL-shaped. *)
Definition convert_with (decoder : string -> string) (link : string)
  : option string :=
  let real_url := decoder link in
  if negb (truthy real_url) || String.eqb real_url link
     || negb (validate_url_format real_url)
  then None
  else Some real_url.

(** One iteration of the loop of [validate_links]: [Some] is the link that
    is appended to [valid_links], [None] an invalid link. *)
Definition validate_link (raw : string) : option string :=
  if negb (truthy raw) then None
  else
    let link := strip raw in
    if len link <? 10 then None
    else
      let converted :=
        if contains link "cdn.iqsaved.com"
        then convert_with extract_real_url link
        else if contains link "instasaved.net" && contains link "download-file"
        then convert_with extract_instasaved_url link
        else Some link in
      match converted with
      | None => None
      | Some link =>
          if negb (validate_url_format link) then None
          else if negb (existsb (contains (lower link)) instagram_patterns)
          then None
          else if negb (startswith link "http://" || startswith link "https://")
          then None
          else Some link
      end.

(** [seen.add(x)] on a Python set of strings: the set [{[x]} ∪ seen], by
    insertion into the map that carries the set. *)
Definition set_add (x : string) (seen : gset string) : gset string :=
  let (m) := seen in Mapset (<[x := tt]> m).

(** [set(l)] *)
Definition set_of (l : list string) : gset string := foldr set_add ∅ l.

(** The final pass: first occurrences only, in order. *)
Fixpoint unique_links (seen : gset string) (valid_links : list string)
  : list string :=
  match valid_links with
  | [] => []
  | link :: rest =>
      if bool_decide (link ∈ seen)
      then unique_links seen rest
      else link :: unique_links (set_add link seen) rest
  end.

Definition validate_links (links : list string) : list string :=
  unique_links ∅ (omap validate_link links).

(** [url.split("/")[-1].split("?")[0]] *)
Definition last_segment (url : string) : string :=
  split_first (split_last url "/") "?".

Definition segment_id (url : string) : string :=
  if contains url "/" then last_segment url else suffix 20 url.

(** [get_clean_id]: for an Instasaved download link the last path segment of
    its decoded [file] parameter, otherwise the last path segment of the
    link; when parsing fails, the first 20 characters of that segment. *)
Definition get_clean_id (url : string) : string :=
  if contains url "instasaved.net/download-file" then
    match urlparse url with
    | None => take 20 (last_segment url)
    | Some parsed =>
        match first_value (parse_qs (query parsed)) "file" with
        | Some file => segment_id (unquote file)
        | None => segment_id url
        end
    end
  else segment_id url.

(* ===================================================================== *)
(** ** Exceptions, the clock and the files of the health tracker *)
(* ===================================================================== *)

(** A raised Python exception: [type(e).__name__] and [str(e)]. *)
Record Exn := { exn_type : string; exn_msg : string }.

(** What a call yields: a value, or an exception. *)
Inductive Outcome (A : Type) : Type :=
| Ok (a : A)
| Raise (e : Exn).
Arguments Ok {A} a.
Arguments Raise {A} e.

(** [x in [...]] for status codes *)
Definition in_list (x : string) (l : list string) : bool :=
  existsb (String.eqb x) l.

(** The truth value of a list *)
Definition nonempty {A} (l : list A) : bool :=
  match l with [] => false | _ :: _ => true end.

(** A line of [error_log.txt]. *)
Inductive ErrorLine :=
| FailureLine (time : Z) (site status : string) (count : Z)
| RetryFailedLine (time : Z) (error_type error_msg : string).

(** The content of [failure_tracker.json]. *)
Record FailureData := {
  failures : gmap string Z;
  consecutive_fails : gmap string Z;
  last_success : gmap string Z;
  total_runs : Z;
  successful_runs : Z
}.

Definition new_failure_data : FailureData :=
  {| failures := ∅; consecutive_fails := ∅; last_success := ∅;
     total_runs := 0; successful_runs := 0 |}.

(** A file with its modification time. *)
Record FailureFile := { ff_mtime : Z; ff_data : FailureData }.

(** ** The browser

    Every navigation of an adapter meets one page; what the adapter can
    observe on it is fixed by the page.  A [Feed] hands out the pages of one
    site in the order of the visits. *)

Record Feed (A : Type) := { feed_visits : nat; feed_page : nat -> A }.
Arguments feed_visits {A} f.
Arguments feed_page {A} f.

Definition feed_next {A} (f : Feed A) : A * Feed A :=
  (feed_page f (feed_visits f),
   {| feed_visits := S (feed_visits f); feed_page := feed_page f |}).

(** An element of a page: its [href] (or the one of the enclosing link),
    unless reading it raises. *)
Definition Element : Type := Outcome (option string).

(** A visit of mollygram.com: the outcome of [page.goto] for a timeout, of
    the search, of the scrolling (were the download buttons found?), the
    presence of a "not found" text, and the download elements. *)
Record MollyPage := {
  m_goto : Z -> Outcome unit;
  m_search : Outcome unit;
  m_scroll : Outcome bool;
  m_not_found : Outcome bool;
  m_elements : Outcome (list Element)
}.

(** A visit of storiesviewer.net: the HTTP status, the search, the two
    notices, the wait for the stories, the [media.php] links, and the two
    [page.reload()] that [retry_storiesviewer] may ask for afterwards. *)
Record ViewerPage := {
  v_goto : Z -> Outcome Z;
  v_search : Outcome unit;
  v_unavailable : bool;
  v_no_stories : bool;
  v_stories : Outcome unit;
  v_elements : Outcome (list Element);
  v_reload : Outcome unit;
  v_reload_again : Outcome unit
}.

(** A visit of instasaved.net. *)
Record InstaPage := {
  i_goto : Z -> Outcome Z;
  i_scroll : Outcome unit;
  i_elements : Outcome (list Element)
}.

(** A visit of iqsaved.com: the download buttons, the [img2.php] links, and
    the order in which the Python set of the links found is listed. *)
Record IqPage := {
  q_goto : Z -> Outcome Z;
  q_scroll : Outcome unit;
  q_buttons : Outcome (list Element);
  q_links : Outcome (list Element);
  q_order : list string -> list string
}.

Record Browser := {
  molly : Feed MollyPage;
  viewer : Feed ViewerPage;
  insta : Feed InstaPage;
  iq : Feed IqPage
}.

(** The part of the world that the adapters work on: the clock, the health
    tracker's files ([failure_tracker.json], and [error_log.txt] with the
    time of its last change; the log exists when it has lines) and the
    browser. *)
Record Sys := {
  now : Z;
  failure_file : option FailureFile;
  error_log : list ErrorLine;
  error_log_mtime : Z;
  browser : Browser
}.

Definition set_failure_file (f : option FailureFile) (s : Sys) : Sys :=
  {| now := now s; failure_file := f; error_log := error_log s;
     error_log_mtime := error_log_mtime s; browser := browser s |}.

Definition append_error_log (l : ErrorLine) (s : Sys) : Sys :=
  {| now := now s; failure_file := failure_file s;
     error_log := (error_log s ++ [l])%list; error_log_mtime := now s;
     browser := browser s |}.

Definition remove_error_log (s : Sys) : Sys :=
  {| now := now s; failure_file := failure_file s; error_log := [];
     error_log_mtime := error_log_mtime s; browser := browser s |}.

Definition set_browser (b : Browser) (s : Sys) : Sys :=
  {| now := now s; failure_file := failure_file s; error_log := error_log s;
     error_log_mtime := error_log_mtime s; browser := b |}.

(* ===================================================================== *)
(** ** Health tracker and adaptive timeout *)
(* ===================================================================== *)

(** The outcomes after which a source counts as working. *)
Definition resetting_statuses : list string :=
  ["SUCCESS"; "NO_STORIES"; "SERVER_UNAVAILABLE"].

Definition load_failure_data (s : Sys) : FailureData :=
  match failure_file s with
  | Some f => ff_data f
  | None => new_failure_data
  end.

(** [data["consecutive_fails"].get(site, 0)] *)
Definition fails_of (data : FailureData) (site : string) : Z :=
  default 0 (consecutive_fails data !! site).

(** [track_failure(site, status)]: one more recorded outcome; the counter of
    the site is reset or incremented; the file is written back; the new
    counter is returned. *)
Definition track_failure (site status : string) (s : Sys) : Z * Sys :=
  let data := load_failure_data s in
  let runs := total_runs data + 1 in
  if in_list status resetting_statuses then
    let success := String.eqb status "SUCCESS" in
    let data' :=
      {| failures := failures data;
         consecutive_fails := <[site := 0]> (consecutive_fails data);
         last_success :=
           if success then <[site := now s]> (last_success data)
           else last_success data;
         total_runs := runs;
         successful_runs :=
           if success then successful_runs data + 1
           else successful_runs data |} in
    (fails_of data' site,
     set_failure_file (Some {| ff_mtime := now s; ff_data := data' |}) s)
  else
    let current_fails := fails_of data site in
    let data' :=
      {| failures := failures data;
         consecutive_fails :=
           <[site := current_fails + 1]> (consecutive_fails data);
         last_success := last_success data;
         total_runs := runs;
         successful_runs := successful_runs data |} in
    (fails_of data' site,
     set_failure_file (Some {| ff_mtime := now s; ff_data := data' |})
       (append_error_log
          (FailureLine (now s) site status (current_fails + 1)) s)).

(** [get_consecutive_fails(site)] *)
Definition get_consecutive_fails (site : string) (s : Sys) : Z :=
  match failure_file s with
  | Some f => fails_of (ff_data f) site
  | None => 0
  end.

(** [get_adaptive_timeout(site_name, base_timeout)] *)
Definition get_adaptive_timeout (site_name : string) (base_timeout : Z)
  (s : Sys) : Z :=
  let consecutive_fails := get_consecutive_fails site_name s in
  if 3 <=? consecutive_fails then
    Z.min 60000 (base_timeout + consecutive_fails * 5000)
  else if consecutive_fails =? 0 then
    Z.max 15000 (base_timeout - 5000)
  else base_timeout.

(** The run counters of the tracker file (0 when there is no file). *)
Definition total_runs_of (s : Sys) : Z := total_runs (load_failure_data s).
Definition successful_runs_of (s : Sys) : Z :=
  successful_runs (load_failure_data s).

(** What [cleanup_old_logs(days_to_keep)] does to the files of the health
    tracker: a file not modified for [days_to_keep] days is removed; in the
    tracker file that stays, the failure events older than 48 hours are
    dropped, and the file is rewritten when some were. *)
Definition prune_failures (s : Sys) : Sys :=
  match failure_file s with
  | None => s
  | Some f =>
      let cutoff := now s - 48 * 3600 in
      let data := ff_data f in
      let kept := filter (fun kv => negb (kv.2 <? cutoff)) (failures data) in
      if decide (kept = failures data) then s
      else
        set_failure_file
          (Some {| ff_mtime := now s;
                   ff_data :=
                     {| failures := kept;
                        consecutive_fails := consecutive_fails data;
                        last_success := last_success data;
                        total_runs := total_runs data;
                        successful_runs := successful_runs data |} |}) s
  end.

Definition cleanup_old_logs (days_to_keep : Z) (s : Sys) : Sys :=
  let cutoff_time := now s - days_to_keep * 86400 in
  let s :=
    match failure_file s with
    | Some f =>
        if ff_mtime f <? cutoff_time then set_failure_file None s else s
    | None => s
    end in
  let s :=
    if nonempty (error_log s) && (error_log_mtime s <? cutoff_time)
    then remove_error_log s
    else s in
  prune_failures s.

(* ===================================================================== *)
(** ** Source adapters *)
(* ===================================================================== *)

(** The third component of what an adapter returns ([error_details]). *)
Inductive Detail :=
| NoDetail
| StatusDetail (code : Z)
| ErrorDetail (e : Exn)
| Note (text : string).

(** [(links, status, error_details)] *)
Definition Result : Type := list string * string * Detail.

Definition visit_molly (s : Sys) : MollyPage * Sys :=
  let b := browser s in
  let '(p, f) := feed_next (molly b) in
  (p, set_browser
        {| molly := f; viewer := viewer b; insta := insta b; iq := iq b |} s).

Definition visit_viewer (s : Sys) : ViewerPage * Sys :=
  let b := browser s in
  let '(p, f) := feed_next (viewer b) in
  (p, set_browser
        {| molly := molly b; viewer := f; insta := insta b; iq := iq b |} s).

Definition visit_insta (s : Sys) : InstaPage * Sys :=
  let b := browser s in
  let '(p, f) := feed_next (insta b) in
  (p, set_browser
        {| molly := molly b; viewer := viewer b; insta := f; iq := iq b |} s).

Definition visit_iq (s : Sys) : IqPage * Sys :=
  let b := browser s in
  let '(p, f) := feed_next (iq b) in
  (p, set_browser
        {| molly := molly b; viewer := viewer b; insta := insta b; iq := f |} s).

(** The page that storiesviewer.net showed last. *)
Definition last_viewer_page (s : Sys) : ViewerPage :=
  let f := viewer (browser s) in feed_page f (Nat.pred (feed_visits f)).

(** [track_failure] called for its effect *)
Definition record (site status : string) (s : Sys) : Sys :=
  snd (track_failure site status s).

(** *** Mollygram *)

(** [decode_mollygram_url]: the [media] parameter, percent-decoded twice
    more, and once again when a [%] is left. *)
Definition decode_mollygram_url (proxy_url : string) : option string :=
  match urlparse proxy_url with
  | None => None
  | Some parsed =>
      match first_value (parse_qs (query parsed)) "media" with
      | None => None
      | Some media_param =>
          let final_url := unquote (unquote media_param) in
          Some (if contains final_url "%" then unquote final_url
                else final_url)
      end
  end.

Definition molly_href (href : option string) : option string :=
  match href with
  | Some h =>
      if truthy h && contains h "anon-viewer.com/media.php" then
        Some (if startswith h "/" then "https://anon-viewer.com" ++ h
              else if negb (startswith h "http") then "https://" ++ h
              else h)
      else None
  | None => None
  end.

Fixpoint collect_molly (els : list Element) (proxy_urls : list string)
  : list string :=
  match els with
  | [] => proxy_urls
  | Raise _ :: rest => collect_molly rest proxy_urls
  | Ok href :: rest =>
      match molly_href href with
      | Some h =>
          if in_list h proxy_urls then collect_molly rest proxy_urls
          else collect_molly rest (proxy_urls ++ [h])%list
      | None => collect_molly rest proxy_urls
      end
  end.

Definition decode_all (proxy_urls : list string) : list string :=
  omap (fun p_url =>
          match decode_mollygram_url p_url with
          | Some direct => if truthy direct then Some direct else None
          | None => None
          end) proxy_urls.

(** The attempts of [check_mollygram], [attempt] counting from 0. *)
Fixpoint molly_attempts (remaining : nat) (attempt max_retries : Z) (s : Sys)
  : Outcome Result * Sys :=
  match remaining with
  | O => (Ok ([], "NO_LINKS", Note "Nessun link trovato dopo i tentativi"), s)
  | S r =>
      let timeout := get_adaptive_timeout "Mollygram" 30000 s in
      let '(page, s) := visit_molly s in
      let next := molly_attempts r (attempt + 1) max_retries s in
      let extract :=
        match m_elements page with
        | Raise _ => next
        | Ok els =>
            match collect_molly els [] with
            | [] => next
            | proxy_urls =>
                (Ok (decode_all proxy_urls, "SUCCESS", Note ""),
                 record "Mollygram" "SUCCESS" s)
            end
        end in
      match m_goto page timeout with
      | Raise _ => next
      | Ok _ =>
          match m_search page with
          | Raise _ => next
          | Ok _ =>
              match m_scroll page with
              | Raise _ => next
              | Ok true => extract
              | Ok false =>
                  match m_not_found page with
                  | Raise _ => next
                  | Ok true =>
                      if attempt =? max_retries - 1
                      then (Ok ([], "NO_STORIES", Note "User not found"), s)
                      else next
                  | Ok false => extract
                  end
              end
          end
      end
  end.

Definition check_mollygram (s : Sys) : Outcome Result * Sys :=
  let max_retries := 3 in
  molly_attempts (Z.to_nat max_retries) 0 max_retries s.

(** *** StoriesViewer *)

Definition viewer_link (raw_url : option string) : list string :=
  match raw_url with
  | Some u =>
      if truthy u && contains u "media=" then
        match split_second u "media=" with
        | Some part =>
            let clean_url := unquote (split_first part "&") in
            if contains clean_url "cdninstagram.com" then [clean_url] else []
        | None => []
        end
      else []
  | None => []
  end.

(** The loop over the elements stops at the first [href] that cannot be
    read, with the links appended so far. *)
Fixpoint collect_viewer (els : list Element) (links : list string)
  : Outcome unit * list string :=
  match els with
  | [] => (Ok tt, links)
  | Raise e :: _ => (Raise e, links)
  | Ok href :: rest => collect_viewer rest (links ++ viewer_link href)%list
  end.

Definition check_storiesviewer (s : Sys) : Outcome Result * Sys :=
  let site := "StoriesViewer" in
  let adjusted_timeout := get_adaptive_timeout site 25000 s in
  let '(page, s) := visit_viewer s in
  let crash (links : list string) (e : Exn) :=
    (Ok (links, "CRASH", ErrorDetail e), record site "CRASH" s) in
  match v_goto page adjusted_timeout with
  | Raise e => crash [] e
  | Ok code =>
      if negb (code =? 200) then
        (Ok ([], "HTTP_ERROR", StatusDetail code), record site "HTTP_ERROR" s)
      else
        match v_search page with
        | Raise e =>
            (Ok ([], "INPUT_ERROR", ErrorDetail e),
             record site "INPUT_ERROR" s)
        | Ok _ =>
            if v_unavailable page then
              (Ok ([], "SERVER_UNAVAILABLE",
                   Note "Server temporaneamente non disponibile"),
               record site "SERVER_UNAVAILABLE" s)
            else if v_no_stories page then
              (Ok ([], "NO_STORIES", Note "Profilo senza storie o privato"),
               record site "NO_STORIES" s)
            else
              let '(status, error_details) :=
                match v_stories page with
                | Ok _ => ("UNKNOWN", NoDetail)
                | Raise e => ("TIMEOUT", ErrorDetail e)
                end in
              match v_elements page with
              | Raise e => crash [] e
              | Ok els =>
                  match collect_viewer els [] with
                  | (Raise e, links) => crash links e
                  | (Ok _, links) =>
                      match validate_links links with
                      | [] =>
                          let status :=
                            if String.eqb status "UNKNOWN" then "NO_LINKS"
                            else status in
                          (Ok ([], status, error_details),
                           record site status s)
                      | links =>
                          (Ok (links, "SUCCESS", error_details),
                           record site "SUCCESS" s)
                      end
                  end
              end
        end
  end.

(** The attempts of [retry_storiesviewer]: a result with links, or one that
    says there is nothing to fetch, ends them; otherwise the page is
    reloaded and the source is tried again. *)
Fixpoint retry_viewer_attempts (remaining : nat) (attempt max_retries : Z)
  (s : Sys) : Outcome Result * Sys :=
  match remaining with
  | O =>
      (Ok ([], "ALL_RETRIES_FAILED", Note "Tutti i tentativi falliti"), s)
  | S r =>
      let '(res, s) := check_storiesviewer s in
      let page := last_viewer_page s in
      let next := retry_viewer_attempts r (attempt + 1) max_retries s in
      let handler (e : Exn) :=
        if attempt <? max_retries then
          match v_reload_again page with
          | Raise e' => (Raise e', s)
          | Ok _ => next
          end
        else (Ok ([], "RETRY_FAILED", ErrorDetail e), s) in
      match res with
      | Raise e => handler e
      | Ok (links, status, error_details) =>
          if nonempty links
             || in_list status ["NO_STORIES"; "SERVER_UNAVAILABLE"]
          then (Ok (links, status, error_details), s)
          else if attempt <? max_retries then
            match v_reload page with
            | Raise e => handler e
            | Ok _ => next
            end
          else next
      end
  end.

Definition retry_storiesviewer (max_retries : Z) (s : Sys)
  : Outcome Result * Sys :=
  retry_viewer_attempts (Z.to_nat (max_retries + 1)) 0 max_retries s.

(** *** Instasaved *)

Fixpoint collect_insta (els : list Element) (unique : list string)
  : Outcome (list string) :=
  match els with
  | [] => Ok unique
  | Raise e :: _ => Raise e
  | Ok href :: rest =>
      match href with
      | Some h =>
          if truthy h && startswith h "http" && negb (in_list h unique)
          then collect_insta rest (unique ++ [h])%list
          else collect_insta rest unique
      | None => collect_insta rest unique
      end
  end.

Definition check_instasaved (s : Sys) : Outcome Result * Sys :=
  let site := "Instasaved" in
  let timeout := get_adaptive_timeout site 25000 s in
  let '(page, s) := visit_insta s in
  let crash (e : Exn) :=
    (Ok ([], "CRASH", ErrorDetail e), record site "CRASH" s) in
  match i_goto page timeout with
  | Raise e => crash e
  | Ok code =>
      if negb (code =? 200) then
        (Ok ([], "HTTP_ERROR", StatusDetail code), record site "HTTP_ERROR" s)
      else
        match i_scroll page with
        | Raise e => crash e
        | Ok _ =>
            match i_elements page with
            | Raise e => crash e
            | Ok [] =>
                (Ok ([], "NO_LINKS",
                     Note "Nessun link 'download-file' trovato"),
                 record site "NO_LINKS" s)
            | Ok els =>
                match collect_insta els [] with
                | Raise e => crash e
                | Ok [] => (Ok ([], "NO_LINKS", NoDetail),
                            record site "NO_LINKS" s)
                | Ok links => (Ok (links, "SUCCESS", NoDetail),
                               record site "SUCCESS" s)
                end
            end
        end
  end.

(** *** IQSaved *)

Fixpoint collect_iq (keep : string -> bool) (els : list Element)
  (links : list string) : Outcome (list string) :=
  match els with
  | [] => Ok links
  | Raise e :: _ => Raise e
  | Ok href :: rest =>
      match href with
      | Some h =>
          if truthy h && keep h then collect_iq keep rest (links ++ [h])%list
          else collect_iq keep rest links
      | None => collect_iq keep rest links
      end
  end.

Definition check_iqsaved (s : Sys) : Outcome Result * Sys :=
  let site := "IQSaved" in
  let timeout := get_adaptive_timeout site 25000 s in
  let '(page, s) := visit_iq s in
  let crash (e : Exn) :=
    (Ok ([], "CRASH", ErrorDetail e), record site "CRASH" s) in
  match q_goto page timeout with
  | Raise e => crash e
  | Ok code =>
      if negb (code =? 200) then
        (Ok ([], "HTTP_ERROR", StatusDetail code), record site "HTTP_ERROR" s)
      else
        match q_scroll page, q_buttons page, q_links page with
        | Raise e, _, _ => crash e
        | Ok _, Raise e, _ => crash e
        | Ok _, Ok buttons, all_links =>
            match collect_iq (fun h => contains h "cdn.iqsaved.com")
                    buttons [] with
            | Raise e => crash e
            | Ok links =>
                match all_links with
                | Raise e => crash e
                | Ok all_links =>
                    match collect_iq (fun _ => true) all_links links with
                    | Raise e => crash e
                    | Ok links =>
                        match q_order page (unique_links ∅ links) with
                        | [] =>
                            (Ok ([], "NO_LINKS",
                                 Note "Sistema cambiato, nessun link estraibile"),
                             record site "NO_LINKS" s)
                        | links =>
                            (Ok (links, "SUCCESS", Note ""),
                             record site "SUCCESS" s)
                        end
                    end
                end
            end
        end
  end.

(** *** The wrappers: an exception that escapes an adapter becomes
    [FATAL_ERROR]. *)

Definition safe_check (check : Sys -> Outcome Result * Sys) (s : Sys)
  : Outcome Result * Sys :=
  match check s with
  | (Ok r, s') => (Ok r, s')
  | (Raise e, s') => (Ok ([], "FATAL_ERROR", ErrorDetail e), s')
  end.

Definition safe_check_mollygram : Sys -> Outcome Result * Sys :=
  safe_check check_mollygram.

Definition safe_check_storiesviewer : Sys -> Outcome Result * Sys :=
  safe_check (retry_storiesviewer 3).

Definition safe_check_instasaved : Sys -> Outcome Result * Sys :=
  safe_check check_instasaved.

Definition safe_check_iqsaved : Sys -> Outcome Result * Sys :=
  safe_check check_iqsaved.

(* ===================================================================== *)
(** ** The world of a run, and the monad of the orchestrator *)
(* ===================================================================== *)

(** An entry of [storie_da_processare]. *)
Record Story := { story_url : string; story_id : string }.

(** The texts sent to Telegram. *)
Inductive Caption :=
| StoryCaption (position total : Z)
| KeywordCaption (keyword : string)
| CriticalAlert (m_status v_status i_status : string)
| FatalAlert (e : Exn).

(** What the orchestrator does to the outside, in order: it invokes an
    operation through the retry executor, it sleeps between two attempts,
    it sends a story ([send_telegram(dida, url, is_video)], with the story
    the call is made for), it sends a text ([send_telegram(text)]). *)
Inductive Event :=
| EvCall (name : string)
| EvSleep (seconds : Z)
| EvDeliver (item : Story) (caption : Caption) (media_url : string)
    (is_video : bool)
| EvAlert (text : Caption).

(** The inputs of a run that the program only reads: the configuration, the
    free disk space, the date of a link as the HTTP probe finds it, the text
    that the OCR service reads on an image. *)
Record Env := {
  OCR_KEY : string;
  PAROLE_CHIAVE : list string;
  disk_space_ok : bool;
  head_timestamp : string -> option Z;
  ocr_text : string -> string
}.

(** [history.txt] is the list of its lines. *)
Record World := {
  sys : Sys;
  history_file : option (list string);
  env : Env;
  trace : list Event
}.

Definition SOGLIA_ALLUVIONE : Z := 150.
Definition MAX_HISTORY : nat := 300.

(** A computation of the orchestrator changes the world and returns a value
    or raises; the world at the raise is the one that the handler sees. *)
Definition M (A : Type) : Type := World -> Outcome A * World.

Definition ret {A} (a : A) : M A := fun w => (Ok a, w).

Definition raise {A} (e : Exn) : M A := fun w => (Raise e, w).

Definition bind {A B} (m : M A) (f : A -> M B) : M B :=
  fun w =>
    match m w with
    | (Ok a, w') => f a w'
    | (Raise e, w') => (Raise e, w')
    end.

(** [try: m except Exception as e: handler e] *)
Definition try_catch {A} (m : M A) (handler : Exn -> M A) : M A :=
  fun w =>
    match m w with
    | (Ok a, w') => (Ok a, w')
    | (Raise e, w') => handler e w'
    end.

Notation "'do' x <- m ; k" := (bind m (fun x => k))
  (at level 10, x name, m at level 100, k at level 200, only parsing).
Notation "'do' ' p <- m ; k" := (bind m (fun x => let 'p := x in k))
  (at level 10, p pattern, m at level 100, k at level 200, only parsing).
Notation "'exec' m ; k" := (bind m (fun _ => k))
  (at level 10, m at level 100, k at level 200, only parsing).

Definition set_sys (s : Sys) (w : World) : World :=
  {| sys := s; history_file := history_file w; env := env w;
     trace := trace w |}.

Definition set_history (h : option (list string)) (w : World) : World :=
  {| sys := sys w; history_file := h; env := env w; trace := trace w |}.

Definition emit (e : Event) : M unit :=
  fun w =>
    (Ok tt,
     {| sys := sys w; history_file := history_file w; env := env w;
        trace := (trace w ++ [e])%list |}).

Definition modify_sys (f : Sys -> Sys) : M unit :=
  fun w => (Ok tt, set_sys (f (sys w)) w).

Definition ask {A} (f : World -> A) : M A := fun w => (Ok (f w), w).

(** [time.sleep(seconds)] *)
Definition sleep (seconds : Z) : M unit := emit (EvSleep seconds).

(* ===================================================================== *)
(** ** Retry executor *)
(* ===================================================================== *)

(** A fallible operation, with the name under which its invocations are
    recorded. *)
Record Operation (A : Type) := {
  op_name : string;
  op_run : Sys -> Outcome A * Sys
}.
Arguments op_name {A} o.
Arguments op_run {A} o.

(** The call of the operation, [func] applied to its arguments. *)
Definition call {A} (func : Operation A) : M A :=
  exec emit (EvCall (op_name func));
  fun w => let '(r, s) := op_run func (sys w) in (r, set_sys s w).

(** The diagnostic line written when the last attempt has failed. *)
Definition log_retry_failed (e : Exn) : M unit :=
  modify_sys (fun s =>
    append_error_log
      (RetryFailedLine (now s) (exn_type e) (take 80 (exn_msg e))) s).

(** The loop [for attempt in range(max_retries + 1)], from [attempt] on,
    with [remaining] iterations to go.  [None] is the value of a call that
    falls through the loop. *)
Fixpoint retry_attempts {A} (func : Operation A) (max_retries : Z)
  (remaining : nat) (attempt : Z) (last_exception : option Exn)
  : M (option A) :=
  match remaining with
  | O =>
      match last_exception with
      | Some e => raise e
      | None => ret None
      end
  | S r =>
      try_catch
        (do result <- call func; ret (Some result))
        (fun e =>
           if attempt =? max_retries then
             (exec log_retry_failed e; raise e)
           else
             (exec sleep (2 ^ attempt + 1);
              retry_attempts func max_retries r (attempt + 1) (Some e)))
  end.

Definition retry_with_backoff {A} (func : Operation A) (max_retries : Z)
  : M (option A) :=
  retry_attempts func max_retries (Z.to_nat (max_retries + 1)) 0 None.

(* ===================================================================== *)
(** ** Chronological order *)
(* ===================================================================== *)

(** A link with its date and its position; no date stands for the
    timestamp [float('inf')]. *)
Definition Dated : Type := string * option Z * Z.

(** The order of the keys [(-timestamp, index)]. *)
Definition key_leb (a b : Dated) : bool :=
  match a.1.2, b.1.2 with
  | None, None => a.2 <=? b.2
  | None, Some _ => true
  | Some _, None => false
  | Some x, Some y => (y <? x) || ((x =? y) && (a.2 <=? b.2))
  end.

Fixpoint insert_dated (x : Dated) (l : list Dated) : list Dated :=
  match l with
  | [] => [x]
  | y :: rest => if key_leb x y then x :: l else y :: insert_dated x rest
  end.

Definition sort_dated (l : list Dated) : list Dated :=
  fold_right insert_dated [] l.

Fixpoint enumerate_from {A} (i : Z) (l : list A) : list (Z * A) :=
  match l with
  | [] => []
  | x :: rest => (i, x) :: enumerate_from (i + 1) rest
  end.

(** [sort_links_chronologically]: the first 100 links sorted by their
    dates, the other links after them as they came. *)
Definition sort_links_chronologically (e : Env) (links : list string)
  : list string :=
  match links with
  | [] | [_] => links
  | _ =>
      let max_links_to_sort := 100%nat in
      let links_to_sort := firstn max_links_to_sort links in
      let remaining_links := skipn max_links_to_sort links in
      let links_with_dates :=
        map (fun ix => (ix.2, head_timestamp e ix.2, ix.1))
          (enumerate_from 0 links_to_sort) in
      (map (fun d => d.1.1) (sort_dated links_with_dates)
         ++ remaining_links)%list
  end.

(* ===================================================================== *)
(** ** The main function *)
(* ===================================================================== *)

(** The locals of [run] after the four phases of the fallback chain. *)
Record Chain := {
  links_molly : list string;
  molly_status : string;
  links_viewer : list string;
  storiesviewer_status : string;
  links_insta : list string;
  insta_status : string;
  links_iq : list string;
  iqsaved_status : string
}.

Definition op_mollygram : Operation Result :=
  {| op_name := "safe_check_mollygram"; op_run := safe_check_mollygram |}.
Definition op_storiesviewer : Operation Result :=
  {| op_name := "safe_check_storiesviewer";
     op_run := safe_check_storiesviewer |}.
Definition op_instasaved : Operation Result :=
  {| op_name := "safe_check_instasaved"; op_run := safe_check_instasaved |}.
Definition op_iqsaved : Operation Result :=
  {| op_name := "safe_check_iqsaved"; op_run := safe_check_iqsaved |}.

(** Unpacking [None] into three names. *)
Definition unpack_error : Exn :=
  {| exn_type := "TypeError";
     exn_msg := "cannot unpack non-iterable NoneType object" |}.

(** One phase: the source behind the retry executor with one retry; when
    the call raises, no links and the status [CRASH]. *)
Definition attempt_source (func : Operation Result)
  : M (list string * string) :=
  try_catch
    (do r <- retry_with_backoff func 1;
     match r with
     | Some (links, status, _) => ret (links, status)
     | None => raise unpack_error
     end)
    (fun _ => ret ([], "CRASH")).

Definition fallback_chain : M Chain :=
  do '(l_molly, s_molly) <- attempt_source op_mollygram;
  do '(l_viewer, s_viewer) <-
    (if negb (nonempty l_molly) then attempt_source op_storiesviewer
     else ret ([], "SKIPPED_SUCCESS"));
  do '(l_insta, s_insta) <-
    (if negb (nonempty l_molly) && negb (nonempty l_viewer)
     then attempt_source op_instasaved
     else ret ([], "SKIPPED_SUCCESS"));
  do '(l_iq, s_iq) <-
    (if negb (nonempty l_molly) && negb (nonempty l_viewer)
        && negb (nonempty l_insta)
     then attempt_source op_iqsaved
     else ret ([], "NOT_TESTED"));
  ret {| links_molly := l_molly; molly_status := s_molly;
         links_viewer := l_viewer; storiesviewer_status := s_viewer;
         links_insta := l_insta; insta_status := s_insta;
         links_iq := l_iq; iqsaved_status := s_iq |}.

(** [add_links_safe]: the links whose clean id has not been met yet. *)
Fixpoint add_links_safe (source_links : list string)
  (acc : list string * gset string) : list string * gset string :=
  match source_links with
  | [] => acc
  | url :: rest =>
      let clean_id := get_clean_id url in
      if truthy clean_id && negb (bool_decide (clean_id ∈ acc.2))
      then add_links_safe rest ((acc.1 ++ [url])%list, set_add clean_id acc.2)
      else add_links_safe rest acc
  end.

Definition unify (c : Chain) : list string :=
  (add_links_safe (links_iq c)
     (add_links_safe (links_insta c)
        (add_links_safe (links_viewer c)
           (add_links_safe (links_molly c) ([], ∅))))).1.

(** The lines of [history.txt], stripped, without the blank ones. *)
Definition load_history (w : World) : list string :=
  match history_file w with
  | Some lines => List.filter truthy (map strip lines)
  | None => []
  end.

(** [storie_da_processare]: the links whose clean id is neither in the
    ledger nor met earlier in the list. *)
Fixpoint new_stories (seen_processing_ids : gset string)
  (links : list string) : list Story :=
  match links with
  | [] => []
  | url :: rest =>
      let clean_id := get_clean_id url in
      if truthy clean_id && negb (bool_decide (clean_id ∈ seen_processing_ids))
      then {| story_url := url; story_id := clean_id |}
           :: new_stories (set_add clean_id seen_processing_ids) rest
      else new_stories seen_processing_ids rest
  end.

Definition ocr_scan (e : Env) (image_url : string) : string :=
  if negb (truthy (OCR_KEY e)) then "" else ocr_text e image_url.

Definition caption_for (e : Env) (i num_nuove : Z) (url : string)
  (is_video : bool) : Caption :=
  let dida := StoryCaption (i + 1) num_nuove in
  if negb is_video && truthy (OCR_KEY e) then
    let txt := ocr_scan e url in
    if truthy txt then
      match List.find (fun k => contains txt k) (PAROLE_CHIAVE e) with
      | Some found_keyword =>
          if truthy found_keyword then KeywordCaption found_keyword else dida
      | None => dida
      end
    else dida
  else dida.

(** [send_telegram(text, media_url, is_video)] for a story, and
    [send_telegram(text)]; neither raises. *)
Definition send_story (item : Story) (text : Caption) (media_url : string)
  (is_video : bool) : M unit :=
  emit (EvDeliver item text media_url is_video).

Definition send_text (text : Caption) : M unit := emit (EvAlert text).

(** The delivery loop, from position [i] on.  The pauses between two
    messages are not recorded. *)
Fixpoint deliver_from (i num_nuove : Z) (items : list Story)
  (ids_to_add : list string) : M (list string) :=
  match items with
  | [] => ret ids_to_add
  | item :: rest =>
      let proxied := contains (story_url item) "cdn.iqsaved.com/img2.php" in
      let url :=
        if proxied then extract_real_url (story_url item)
        else story_url item in
      if proxied && negb (truthy url) then
        deliver_from (i + 1) num_nuove rest ids_to_add
      else
        let is_video :=
          contains (lower url) ".mp4" || contains (lower url) "video" in
        do e <- ask env;
        exec send_story item (caption_for e i num_nuove url is_video) url
               is_video;
        deliver_from (i + 1) num_nuove rest
          (ids_to_add ++ [story_id item])%list
  end.

(** The delivery phase: nothing is sent above the flood threshold, but the
    ids are kept for the ledger. *)
Definition delivery_phase (storie_da_processare : list Story)
  : M (list string) :=
  let num_nuove := Z.of_nat (List.length storie_da_processare) in
  if SOGLIA_ALLUVIONE <? num_nuove then
    ret (map story_id storie_da_processare)
  else if 0 <? num_nuove then
    deliver_from 0 num_nuove storie_da_processare []
  else ret [].

(** [updated_history[-MAX_HISTORY:]] *)
Definition last_entries (n : nat) (l : list string) : list string :=
  skipn (List.length l - n) l.

(** The ledger is rewritten when there are ids to add and disk space. *)
Definition save_history (seen_ids ids_to_add : list string) : M unit :=
  fun w =>
    if nonempty ids_to_add && disk_space_ok (env w) then
      let updated_history := (seen_ids ++ ids_to_add)%list in
      let updated_history :=
        if (MAX_HISTORY <? List.length updated_history)%nat
        then last_entries MAX_HISTORY updated_history
        else updated_history in
      (Ok tt,
       set_history
         (Some (List.filter (fun sid => truthy (strip sid)) updated_history))
         w)
    else (Ok tt, w).

Definition source_ok (status : string) (links : list string) : bool :=
  String.eqb status "SUCCESS" && nonempty links.

Definition any_success (c : Chain) : bool :=
  source_ok (molly_status c) (links_molly c)
  || source_ok (storiesviewer_status c) (links_viewer c)
  || source_ok (insta_status c) (links_insta c)
  || source_ok (iqsaved_status c) (links_iq c).

Definition all_no_links (c : Chain) : bool :=
  in_list (molly_status c) ["NO_LINKS"; "NOT_TESTED"]
  && in_list (storiesviewer_status c)
       ["NO_LINKS"; "NOT_TESTED"; "SKIPPED_SUCCESS"]
  && in_list (insta_status c) ["NO_LINKS"; "NOT_TESTED"; "SKIPPED_SUCCESS"].

(** The health check: the critical alert goes out when no source has
    brought links and the statuses are not all of the "no links" kind. *)
Definition health_check (c : Chain) : M unit :=
  if negb (any_success c) then
    if negb (all_no_links c) then
      send_text
        (CriticalAlert (molly_status c) (storiesviewer_status c)
           (insta_status c))
    else ret tt
  else ret tt.

(** The values of the locals of [run] when it ends. *)
Record Report := {
  seen_ids : list string;
  chain : Chain;
  tutti_i_link : list string;
  storie_da_processare : list Story;
  ids_to_add : list string
}.

Definition run_body : M Report :=
  do seen <- ask load_history;
  do c <- fallback_chain;
  let all_links := unify c in
  let validated := validate_links all_links in
  do e <- ask env;
  let links :=
    if nonempty validated then sort_links_chronologically e validated
    else validated in
  let storie := new_stories (set_of seen) links in
  do ids <- delivery_phase storie;
  exec save_history seen ids;
  exec health_check c;
  ret {| seen_ids := seen; chain := c; tutti_i_link := links;
         storie_da_processare := storie; ids_to_add := ids |}.

(** [run()]: the logs are cleaned, then the body runs; an exception that
    escapes the body is reported to Telegram and raised again. *)
Definition run : M Report :=
  exec modify_sys (cleanup_old_logs 7);
  try_catch run_body
    (fun e => exec send_text (FatalAlert e); raise e).

(* ===================================================================== *)
(** ** Definitions used to state the properties *)
(* ===================================================================== *)

(** The link of the specification's example, the same link served by the
    proxy host that the validator knows, and the canonical URL of both. *)
Definition proxy_example : string :=
  "https://proxy.example/img2.php?url=https%3A%2F%2Fcdninstagram.com%2Fa.jpg".

Definition iqsaved_example : string :=
  "https://cdn.iqsaved.com/img2.php?url=https%3A%2F%2Fcdninstagram.com%2Fa.jpg".

Definition canonical_example : string := "https://cdninstagram.com/a.jpg".

(** The outcomes recorded one after the other for one site, with the
    counter that each call returns. *)
Fixpoint record_all (site : string) (statuses : list string) (s : Sys)
  : list Z * Sys :=
  match statuses with
  | [] => ([], s)
  | status :: rest =>
      let '(n, s1) := track_failure site status s in
      let '(ns, s2) := record_all site rest s1 in
      (n :: ns, s2)
  end.

(** The rule of the counter, and the counters that it gives along a
    sequence of outcomes. *)
Definition next_counter (counter : Z) (status : string) : Z :=
  if in_list status resetting_statuses then 0 else counter + 1.


(** The state after [n] invocations of an operation, and the outcome of
    invocation number [n] (from 0). *)
Fixpoint state_after {A} (func : Operation A) (n : nat) (s : Sys) : Sys :=
  match n with
  | O => s
  | S k => snd (op_run func (state_after func k s))
  end.

Definition outcome_at {A} (func : Operation A) (n : nat) (s : Sys)
  : Outcome A :=
  fst (op_run func (state_after func n s)).

Definition failed {A} (o : Outcome A) : Prop :=
  match o with Ok _ => False | Raise _ => True end.

(** [k] failed attempts, from attempt number [attempt] on, each followed by
    its pause. *)
Fixpoint failed_attempts (name : string) (attempt : Z) (k : nat)
  : list Event :=
  match k with
  | O => []
  | S j =>
      EvCall name :: EvSleep (2 ^ attempt + 1)
        :: failed_attempts name (attempt + 1) j
  end.

Definition is_call (e : Event) : bool :=
  match e with EvCall _ => true | _ => false end.

Definition is_delivery (e : Event) : bool :=
  match e with EvDeliver _ _ _ _ => true | _ => false end.

Definition is_critical_alert (e : Event) : bool :=
  match e with EvAlert (CriticalAlert _ _ _) => true | _ => false end.

(** The sources in the order of their priority, and the links that each
    brought in a run. *)
Definition source_name (k : nat) : string :=
  match k with
  | 0%nat => op_name op_mollygram
  | 1%nat => op_name op_storiesviewer
  | 2%nat => op_name op_instasaved
  | _ => op_name op_iqsaved
  end.

Definition source_links (c : Chain) (k : nat) : list string :=
  match k with
  | 0%nat => links_molly c
  | 1%nat => links_viewer c
  | 2%nat => links_insta c
  | _ => links_iq c
  end.

(** What the delivery loop sends for a list of stories, and the ids that it
    marks. *)
Definition delivery_url (item : Story) : string :=
  if contains (story_url item) "cdn.iqsaved.com/img2.php"
  then extract_real_url (story_url item)
  else story_url item.

Definition skipped (item : Story) : bool :=
  contains (story_url item) "cdn.iqsaved.com/img2.php"
  && negb (truthy (delivery_url item)).

Definition video_url (url : string) : bool :=
  contains (lower url) ".mp4" || contains (lower url) "video".

Fixpoint delivery_events (e : Env) (i num_nuove : Z) (items : list Story)
  : list Event :=
  match items with
  | [] => []
  | item :: rest =>
      if skipped item then delivery_events e (i + 1) num_nuove rest
      else
        let url := delivery_url item in
        EvDeliver item (caption_for e i num_nuove url (video_url url)) url
          (video_url url)
          :: delivery_events e (i + 1) num_nuove rest
  end.

Definition sent_ids (items : list Story) : list string :=
  map story_id (List.filter (fun item => negb (skipped item)) items).

(** The statuses that the health check takes for "nothing found". *)
Definition no_links_statuses : list string :=
  ["NO_LINKS"; "NOT_TESTED"; "SKIPPED_SUCCESS"].

(** The benign set of the specification in the names of the code:
    NO_RESULTS covers the two statuses that say that a source had nothing,
    [NO_LINKS] and [NO_STORIES]; NOT_TRIED is [NOT_TESTED], SKIPPED is
    [SKIPPED_SUCCESS], UPSTREAM_UNAVAILABLE is [SERVER_UNAVAILABLE]. *)
Definition spec_benign_statuses : list string :=
  ["NO_LINKS"; "NO_STORIES"; "NOT_TESTED"; "SKIPPED_SUCCESS";
   "SERVER_UNAVAILABLE"].

(** The condition of the critical alert as the specification words it: no
    source produced a link, and some status is not benign. *)
Definition spec_alert_condition (c : Chain) : bool :=
  negb (nonempty (links_molly c)) && negb (nonempty (links_viewer c))
  && negb (nonempty (links_insta c)) && negb (nonempty (links_iq c))
  && negb (in_list (molly_status c) spec_benign_statuses
           && in_list (storiesviewer_status c) spec_benign_statuses
           && in_list (insta_status c) spec_benign_statuses
           && in_list (iqsaved_status c) spec_benign_statuses).

(** *** Worlds for the examples *)

Definition timeout_error : Exn :=
  {| exn_type := "TimeoutError"; exn_msg := "Timeout exceeded" |}.

Definition always {A} (page : A) : Feed A :=
  {| feed_visits := 0; feed_page := fun _ => page |}.

(** mollygram.com with download buttons for the given links *)
Definition molly_with (hrefs : list string) : MollyPage :=
  {| m_goto := fun _ => Ok tt; m_search := Ok tt; m_scroll := Ok true;
     m_not_found := Ok false;
     m_elements := Ok (map (fun h => Ok (Some h)) hrefs) |}.

(** mollygram.com does not load *)
Definition molly_down : MollyPage :=
  {| m_goto := fun _ => Raise timeout_error; m_search := Ok tt;
     m_scroll := Ok false; m_not_found := Ok false; m_elements := Ok [] |}.

(** storiesviewer.net answers with an HTTP status *)
Definition viewer_http (code : Z) : ViewerPage :=
  {| v_goto := fun _ => Ok code; v_search := Ok tt; v_unavailable := false;
     v_no_stories := false; v_stories := Ok tt; v_elements := Ok [];
     v_reload := Ok tt; v_reload_again := Ok tt |}.

(** storiesviewer.net says that its server is temporarily unavailable *)
Definition viewer_unavailable : ViewerPage :=
  {| v_goto := fun _ => Ok 200; v_search := Ok tt; v_unavailable := true;
     v_no_stories := false; v_stories := Ok tt; v_elements := Ok [];
     v_reload := Ok tt; v_reload_again := Ok tt |}.

(** instasaved.net answers with an HTTP status, or shows no download link *)
Definition insta_http (code : Z) : InstaPage :=
  {| i_goto := fun _ => Ok code; i_scroll := Ok tt; i_elements := Ok [] |}.

Definition iq_http (code : Z) : IqPage :=
  {| q_goto := fun _ => Ok code; q_scroll := Ok tt; q_buttons := Ok [];
     q_links := Ok []; q_order := fun links => links |}.

Definition quiet_env : Env :=
  {| OCR_KEY := ""; PAROLE_CHIAVE := []; disk_space_ok := true;
     head_timestamp := fun _ => None; ocr_text := fun _ => "" |}.

Definition fresh_sys (b : Browser) : Sys :=
  {| now := 1700000000; failure_file := None; error_log := [];
     error_log_mtime := 0; browser := b |}.

Definition world_of (b : Browser) (history : option (list string)) : World :=
  {| sys := fresh_sys b; history_file := history; env := quiet_env;
     trace := [] |}.

(** Every site fails to answer properly. *)
Definition all_down : Browser :=
  {| molly := always molly_down; viewer := always (viewer_http 500);
     insta := always (insta_http 500); iq := always (iq_http 500) |}.

(** Nothing to fetch anywhere, and storiesviewer.net unavailable. *)
Definition nothing_found : Browser :=
  {| molly := always molly_down; viewer := always viewer_unavailable;
     insta := always (insta_http 200); iq := always (iq_http 200) |}.

(** Mollygram offers [n] stories [s0.jpg], [s1.jpg], ... *)
Definition decimal (n : nat) : string :=
  DecimalString.NilEmpty.string_of_uint (Nat.to_uint n).

Definition story_href (n : nat) : string :=
  "https://anon-viewer.com/media.php?media=https%3A%2F%2Fcdninstagram.com%2Fs"
    ++ decimal n ++ ".jpg".

Definition stories_on_molly (n : nat) : Browser :=
  {| molly := always (molly_with (map story_href (seq 0 n)));
     viewer := always (viewer_http 500); insta := always (insta_http 500);
     iq := always (iq_http 500) |}.

(** The trace and the ledger left by a run. *)
Definition trace_after (w : World) : list Event := trace (snd (run w)).
Definition history_after (w : World) : option (list string) :=
  history_file (snd (run w)).


(** *** The pieces of a run *)

(** The events that a computation adds to the trace. *)
Definition new_events (w w' : World) : list Event :=
  skipn (List.length (trace w)) (trace w').

Definition add_events (evs : list Event) (w : World) : World :=
  {| sys := sys w; history_file := history_file w; env := env w;
     trace := (trace w ++ evs)%list |}.

(** The world after one invocation of an operation. *)
Definition after_call {A} (func : Operation A) (w : World) : World :=
  {| sys := snd (op_run func (sys w)); history_file := history_file w;
     env := env w; trace := (trace w ++ [EvCall (op_name func)])%list |}.


(** The events of the retry executor around the operation [name]. *)
Definition retry_event (name : string) (e : Event) : Prop :=
  e = EvCall name \/ exists n, e = EvSleep n.

(** The ledger and the read-only inputs are the same in both worlds. *)
Definition same_files (w w' : World) : Prop :=
  history_file w' = history_file w /\ env w' = env w.

(** The events of a fallback chain that ended with the locals [c]: those of
    the four phases, a phase being empty when a source before it has
    brought links. *)
Definition chain_trace (c : Chain) (evs : list Event) : Prop :=
  exists e1 e2 e3 e4,
    evs = (e1 ++ e2 ++ e3 ++ e4)%list
    /\ Forall (retry_event (source_name 0)) e1
    /\ Forall (retry_event (source_name 1)) e2
    /\ Forall (retry_event (source_name 2)) e3
    /\ Forall (retry_event (source_name 3)) e4
    /\ (links_molly c <> [] -> e2 = [])
    /\ (links_molly c <> [] \/ links_viewer c <> [] -> e3 = [])
    /\ (links_molly c <> [] \/ links_viewer c <> [] \/ links_insta c <> []
        -> e4 = []).

(** The ledger that [save_history] leaves. *)
Definition saved_history (w : World) (seen ids : list string)
  : option (list string) :=
  if nonempty ids && disk_space_ok (env w) then
    Some (List.filter (fun sid => truthy (strip sid))
            (if (MAX_HISTORY <? List.length (seen ++ ids))%nat
             then last_entries MAX_HISTORY (seen ++ ids)
             else (seen ++ ids)%list))
  else history_file w.

(** What the health check sends. *)
Definition alert_events (c : Chain) : list Event :=
  if negb (any_success c) && negb (all_no_links c)
  then [EvAlert (CriticalAlert (molly_status c) (storiesviewer_status c)
                   (insta_status c))]
  else [].

(** The candidates, the new stories, the ids and the deliveries of a run
    whose fallback chain ended with [c]. *)
Definition candidates_of (w : World) (c : Chain) : list string :=
  let validated := validate_links (unify c) in
  if nonempty validated
  then sort_links_chronologically (env w) validated
  else validated.

Definition stories_of (w : World) (c : Chain) : list Story :=
  new_stories (set_of (load_history w)) (candidates_of w c).

Definition flood (storie : list Story) : bool :=
  SOGLIA_ALLUVIONE <? Z.of_nat (List.length storie).

Definition ids_of (storie : list Story) : list string :=
  if flood storie then map story_id storie else sent_ids storie.

Definition deliveries_of (w : World) (storie : list Story) : list Event :=
  if flood storie then []
  else delivery_events (env w) 0 (Z.of_nat (List.length storie)) storie.

Definition report_of (w : World) (c : Chain) : Report :=
  {| seen_ids := load_history w; chain := c;
     tutti_i_link := candidates_of w c;
     storie_da_processare := stories_of w c;
     ids_to_add := ids_of (stories_of w c) |}.

(** Does the run send the critical alert? *)
Definition alerted (w : World) : bool :=
  existsb is_critical_alert (new_events w (snd (run w))).

(** *** More examples *)


(** Story number [n] of [stories_on_molly]. *)
Definition story (n : nat) : Story :=
  {| story_url := "https://cdninstagram.com/s" ++ decimal n ++ ".jpg";
     story_id := "s" ++ decimal n ++ ".jpg" |}.

Definition quiet_world : World := world_of all_down None.

(** Three stories on Mollygram, the second of them in the ledger. *)
Definition three_stories : World :=
  world_of (stories_on_molly 3) (Some ["s1.jpg"]).

(** Two stories on Mollygram, both in the ledger. *)
Definition known_stories : World :=
  world_of (stories_on_molly 2) (Some ["s0.jpg"; "s1.jpg"]).



(** Locals of a fallback chain without links. *)
Definition chain_of (m v i q : string) : Chain :=
  {| links_molly := []; molly_status := m;
     links_viewer := []; storiesviewer_status := v;
     links_insta := []; insta_status := i;
     links_iq := []; iqsaved_status := q |}.

(** The health tracker after [n] failures of Mollygram in a row. *)
Definition after_failures (n : nat) : Sys :=
  snd (record_all "Mollygram" (repeat "FAIL" n) (fresh_sys all_down)).

(* ===================================================================== *)
(** ** Definitions used to state further properties *)
(* ===================================================================== *)

(** The text [s] does not hold the character [c]. *)
Definition lacks (c : ascii) (s : string) : bool :=
  all_chars (fun x => negb (Ascii.eqb x c)) s.

(** The text holds no white space. *)
Definition no_space (s : string) : bool :=
  all_chars (fun c => negb (is_space c)) s.

(** A value of a query parameter that reaches [parse_qs] whole: not empty,
    and without the characters that [urlparse] removes (TAB, CR, LF) or
    that end the query ([#]) or the field ([&]). *)
Definition plain_value (u : string) : bool :=
  truthy u
  && all_chars (fun c => negb (unsafe_byte c) && negb (Ascii.eqb c "#")
                         && negb (Ascii.eqb c "&")) u.

(** [a] is not older than [b]; a link without a date counts as the newest,
    its key being minus infinity. *)
Definition not_older (e : Env) (a b : string) : Prop :=
  match head_timestamp e a, head_timestamp e b with
  | None, _ => True
  | Some _, None => False
  | Some x, Some y => y <= x
  end.

(** The triples [(url, timestamp, index)] that [sort_links_chronologically]
    sorts, the index counting from [i]. *)
Definition dated_links (e : Env) (i : Z) (l : list string) : list Dated :=
  map (fun ix : Z * string => (ix.2, head_timestamp e ix.2, ix.1))
    (enumerate_from i l).

(** The counters of the tracker file are sound: the run counters are
    ordered, and no counter of consecutive failures is negative or above
    the number of recorded outcomes. *)
Definition tracker_ok (s : Sys) : Prop :=
  0 <= successful_runs_of s <= total_runs_of s
  /\ forall site, 0 <= get_consecutive_fails site s <= total_runs_of s.

(** The tracker file was last modified more than [days_to_keep] days ago. *)
Definition tracker_stale (days_to_keep : Z) (s : Sys) : bool :=
  match failure_file s with
  | Some f => ff_mtime f <? now s - days_to_keep * 86400
  | None => false
  end.

(** Two states with the same clock and the same files of the health
    tracker. *)
Definition same_tracker (s s' : Sys) : Prop :=
  now s' = now s /\ failure_file s' = failure_file s
  /\ error_log s' = error_log s /\ error_log_mtime s' = error_log_mtime s.

(** The number of visits paid to mollygram.com and to storiesviewer.net. *)
Definition molly_visits (s : Sys) : nat := feed_visits (molly (browser s)).

Definition viewer_visits (s : Sys) : nat := feed_visits (viewer (browser s)).

(** What [retry_storiesviewer] may return: links with SUCCESS (or with CRASH,
    when reading the page broke off), or no links with one of three
    statuses. *)
Definition viewer_result_ok (r : Outcome Result) : Prop :=
  match r with
  | Ok (links, status, _) =>
      if nonempty links then status = "SUCCESS" \/ status = "CRASH"
      else In status ["NO_STORIES"; "SERVER_UNAVAILABLE"; "ALL_RETRIES_FAILED"]
  | Raise _ => True
  end.

(** The sources that a fallback chain with the locals [c] has invoked. *)
Definition attempted (c : Chain) : list string :=
  source_name 0
    :: (if nonempty (links_molly c) then []
        else source_name 1
               :: (if nonempty (links_viewer c) then []
                   else source_name 2
                          :: (if nonempty (links_insta c) then []
                              else [source_name 3]))).

Definition is_sleep (e : Event) : bool :=
  match e with EvSleep _ => true | _ => false end.

(** The clean ids of the stories sent to Telegram. *)
Definition delivered_ids (evs : list Event) : list string :=
  omap (fun e => match e with
                 | EvDeliver item _ _ _ => Some (story_id item)
                 | _ => None
                 end) evs.

(** *** Further worlds for the examples *)

(** storiesviewer.net shows one story, and reading the next element of the
    page fails. *)
Definition viewer_breaks_off : ViewerPage :=
  {| v_goto := fun _ => Ok 200; v_search := Ok tt; v_unavailable := false;
     v_no_stories := false; v_stories := Ok tt;
     v_elements :=
       Ok [Ok (Some ("https://storiesviewer.net/media.php?media="
                       ++ "https%3A%2F%2Fcdninstagram.com%2Fa.jpg"));
           Raise timeout_error];
     v_reload := Ok tt; v_reload_again := Ok tt |}.

Definition viewer_crash : Browser :=
  {| molly := always molly_down; viewer := always viewer_breaks_off;
     insta := always (insta_http 200); iq := always (iq_http 200) |}.

(** Every site answers and shows nothing: no story, and no notice. *)
Definition quiet_sites : Browser :=
  {| molly := always (molly_with []); viewer := always (viewer_http 200);
     insta := always (insta_http 200); iq := always (iq_http 200) |}.

(** A second run on the same site, from the ledger that the run of
    [three_stories] leaves. *)
Definition next_run : World :=
  world_of (stories_on_molly 3) (history_after three_stories).

(** Three stories on Mollygram, and no space left on the disk. *)
Definition full_disk : World :=
  {| sys := fresh_sys (stories_on_molly 3); history_file := Some ["s1.jpg"];
     env := {| OCR_KEY := ""; PAROLE_CHIAVE := []; disk_space_ok := false;
               head_timestamp := fun _ => None; ocr_text := fun _ => "" |};
     trace := [] |}.

(* ===================================================================== *)
(** ** Properties of the normaliser and of the validator *)
(* ===================================================================== *)

(** C4 (as the code has it).  For the link of the example the normaliser
    [extract_real_url] yields ["https://cdninstagram.com/a.jpg"], the
    validator accepts that URL and its clean id is ["a.jpg"].  The validator
    itself normalises only the links of the proxy hosts that it knows: given
    the link on [proxy.example] it returns the link as it is; given the same
    link on [cdn.iqsaved.com] it returns the canonical URL, whose clean id
    is ["a.jpg"]. *)
Theorem normaliser_validator_example :
  extract_real_url proxy_example = canonical_example
  /\ validate_links [canonical_example] = [canonical_example]
  /\ get_clean_id canonical_example = "a.jpg"
  /\ validate_links [proxy_example] = [proxy_example]
  /\ validate_links [iqsaved_example] = [canonical_example]
  /\ map get_clean_id (validate_links [iqsaved_example]) = ["a.jpg"].
Proof. repeat split; vm_compute; reflexivity. Qed.

(** C4 fails as stated: for the input list of the example the output of the
    validator does not contain the canonical URL, and the clean id of the
    link that it accepts is not ["a.jpg"] (it is ["img2.php"]). *)
Lemma proxy_example_not_normalised :
  ~ In canonical_example (validate_links [proxy_example])
  /\ map get_clean_id (validate_links [proxy_example]) = ["img2.php"]
  /\ map get_clean_id (validate_links [proxy_example]) <> ["a.jpg"].
Proof.
  assert (Hv : validate_links [proxy_example] = [proxy_example])
    by (vm_compute; reflexivity).
  rewrite Hv. split; [|split].
  - intros [H | []]. vm_compute in H. discriminate H.
  - vm_compute. reflexivity.
  - vm_compute. discriminate.
Qed.

(* ===================================================================== *)
(** ** Properties of the health tracker *)
(* ===================================================================== *)

Lemma track_failure_counter site status s :
  get_consecutive_fails site (snd (track_failure site status s))
  = next_counter (get_consecutive_fails site s) status
  /\ fst (track_failure site status s)
     = next_counter (get_consecutive_fails site s) status.
Proof.
  unfold track_failure, next_counter, get_consecutive_fails, load_failure_data.
  destruct (in_list status resetting_statuses); simpl;
    unfold fails_of; simpl; rewrite !lookup_insert_eq; simpl;
    destruct (failure_file s); simpl; auto.
Qed.

(** Recording an outcome of a site leaves the counters of the others. *)
Lemma track_failure_other site site' status s :
  site <> site' ->
  get_consecutive_fails site' (snd (track_failure site status s))
  = get_consecutive_fails site' s.
Proof.
  intros Hne.
  unfold track_failure, get_consecutive_fails, load_failure_data.
  destruct (in_list status resetting_statuses); simpl;
    unfold fails_of; simpl; rewrite lookup_insert_ne by done;
    destruct (failure_file s); simpl; auto.
Qed.



(** C9 (as the code has it).  The counter [total_runs] grows by one with
    every outcome that the health tracker records, and [successful_runs] by
    one with every recorded SUCCESS: they count the recorded outcomes of
    the adapters, of which one run of the orchestrator can have several. *)
Theorem run_counters_per_recorded_outcome site status s :
  total_runs_of (snd (track_failure site status s)) = total_runs_of s + 1
  /\ successful_runs_of (snd (track_failure site status s))
     = successful_runs_of s + (if String.eqb status "SUCCESS" then 1 else 0).
Proof.
  unfold track_failure, total_runs_of, successful_runs_of.
  destruct (in_list status resetting_statuses) eqn:Hin; simpl.
  - split; [reflexivity|]. destruct (String.eqb status "SUCCESS"); lia.
  - split; [reflexivity|].
    destruct (String.eqb status "SUCCESS") eqn:Heq; [|lia].
    apply String.eqb_eq in Heq. subst status. discriminate Hin.
Qed.

(** C9 fails as stated: in one run in which mollygram.com does not load and
    the three other sites answer with HTTP 500, [total_runs] goes from 0 to
    6 (four outcomes of StoriesViewer, one of Instasaved, one of
    IQSaved). *)
Lemma total_runs_six_in_one_run :
  total_runs_of (sys quiet_world) = 0
  /\ total_runs_of (sys (snd (run quiet_world))) = 6
  /\ total_runs_of (sys (snd (run quiet_world)))
     <> total_runs_of (sys quiet_world) + 1.
Proof. vm_compute. repeat split; discriminate. Qed.

(** The adaptive timeout as a function of the counter. *)
Lemma adaptive_timeout_rule site base s :
  get_adaptive_timeout site base s
  = (if 3 <=? get_consecutive_fails site s
     then Z.min 60000 (base + get_consecutive_fails site s * 5000)
     else if get_consecutive_fails site s =? 0
          then Z.max 15000 (base - 5000)
          else base).
Proof. reflexivity. Qed.

(** C7 (as the code has it).  The adaptive timeout is
    [min(60000, base + failures * 5000)] from 3 consecutive failures on,
    [max(15000, base - 5000)] without failures, and the base otherwise; it
    does not decrease when the failures, 3 or more, increase; without
    failures it is below the base exactly when the base is above 15000, as
    the bases 25000 and 30000 of the program are. *)
Theorem adaptive_timeout_properties site base s :
  (3 <= get_consecutive_fails site s ->
   get_adaptive_timeout site base s
   = Z.min 60000 (base + get_consecutive_fails site s * 5000))
  /\ (get_consecutive_fails site s = 0 ->
      get_adaptive_timeout site base s = Z.max 15000 (base - 5000))
  /\ (get_consecutive_fails site s < 3 -> get_consecutive_fails site s <> 0 ->
      get_adaptive_timeout site base s = base)
  /\ (forall s',
        3 <= get_consecutive_fails site s ->
        get_consecutive_fails site s <= get_consecutive_fails site s' ->
        get_adaptive_timeout site base s <= get_adaptive_timeout site base s')
  /\ (get_consecutive_fails site s = 0 ->
      (get_adaptive_timeout site base s < base <-> 15000 < base)).
Proof.
  rewrite adaptive_timeout_rule.
  split; [|split; [|split; [|split]]].
  - intros H. apply Z.leb_le in H. by rewrite H.
  - intros H. rewrite H. reflexivity.
  - intros H1 H2.
    destruct (3 <=? get_consecutive_fails site s) eqn:E1; [lia|].
    destruct (get_consecutive_fails site s =? 0) eqn:E2; [lia|reflexivity].
  - intros s' H1 H2. rewrite adaptive_timeout_rule.
    destruct (3 <=? get_consecutive_fails site s) eqn:E1; [|lia].
    destruct (3 <=? get_consecutive_fails site s') eqn:E2; lia.
  - intros H. rewrite H. simpl. lia.
Qed.

(** The properties of C7 at work: after 3 and 4 failures of Mollygram, after
    one failure, and without failures, for the base 30000. *)
Lemma adaptive_timeout_properties_witness :
  (3 <= get_consecutive_fails "Mollygram" (after_failures 3)
   /\ get_adaptive_timeout "Mollygram" 30000 (after_failures 3) = 45000
   /\ get_adaptive_timeout "Mollygram" 30000 (after_failures 3)
      <= get_adaptive_timeout "Mollygram" 30000 (after_failures 4))
  /\ (get_consecutive_fails "Mollygram" (after_failures 1) < 3
      /\ get_adaptive_timeout "Mollygram" 30000 (after_failures 1) = 30000)
  /\ (get_consecutive_fails "Mollygram" (after_failures 0) = 0
      /\ get_adaptive_timeout "Mollygram" 30000 (after_failures 0) = 25000
      /\ get_adaptive_timeout "Mollygram" 30000 (after_failures 0) < 30000).
Proof.
  assert (H3 : get_consecutive_fails "Mollygram" (after_failures 3) = 3)
    by (vm_compute; reflexivity).
  assert (H4 : get_consecutive_fails "Mollygram" (after_failures 4) = 4)
    by (vm_compute; reflexivity).
  assert (H1 : get_consecutive_fails "Mollygram" (after_failures 1) = 1)
    by (vm_compute; reflexivity).
  assert (H0 : get_consecutive_fails "Mollygram" (after_failures 0) = 0)
    by (vm_compute; reflexivity).
  split; [|split].
  - destruct (adaptive_timeout_properties "Mollygram" 30000 (after_failures 3))
      as (Ha & _ & _ & Hd & _).
    split; [lia|]. split.
    + rewrite Ha by lia. rewrite H3. reflexivity.
    + apply Hd; lia.
  - destruct (adaptive_timeout_properties "Mollygram" 30000 (after_failures 1))
      as (_ & _ & Hc & _).
    split; [lia|]. apply Hc; lia.
  - destruct (adaptive_timeout_properties "Mollygram" 30000 (after_failures 0))
      as (_ & Hb & _ & _ & He).
    split; [exact H0|]. split.
    + rewrite (Hb H0). reflexivity.
    + apply (He H0). lia.
Defined.

(** C7 fails as stated: for a source without failures and the base 15000
    the adaptive timeout is 15000, not less than the base. *)
Lemma adaptive_timeout_not_below_base :
  get_consecutive_fails "Mollygram" (fresh_sys all_down) = 0
  /\ ~ (get_adaptive_timeout "Mollygram" 15000 (fresh_sys all_down) < 15000).
Proof. vm_compute. split; [reflexivity|]. intros H. discriminate H. Qed.

(* ===================================================================== *)
(** ** Properties of the retry executor *)
(* ===================================================================== *)

Section RetryExecutor.

Context {A : Type} (func : Operation A).

Lemma state_after_shift n s :
  state_after func n (snd (op_run func s)) = state_after func (S n) s.
Proof.
  induction n as [|n IH]; [reflexivity|].
  simpl in *. by rewrite IH.
Qed.

Lemma outcome_at_shift n s :
  outcome_at func n (snd (op_run func s)) = outcome_at func (S n) s.
Proof. unfold outcome_at. by rewrite state_after_shift. Qed.

Lemma call_spec w :
  call func w = (fst (op_run func (sys w)), after_call func w).
Proof.
  unfold call, bind, emit, after_call, set_sys. simpl.
  by destruct (op_run func (sys w)).
Qed.

(** One iteration of the loop. *)
Lemma retry_attempts_step N r attempt last w :
  retry_attempts func N (S r) attempt last w
  = match fst (op_run func (sys w)) with
    | Ok a => (Ok (Some a), after_call func w)
    | Raise e =>
        if attempt =? N then
          (Raise e,
           set_sys
             (append_error_log
                (RetryFailedLine (now (sys (after_call func w))) (exn_type e)
                   (take 80 (exn_msg e)))
                (sys (after_call func w)))
             (after_call func w))
        else
          retry_attempts func N r (attempt + 1) (Some e)
            (add_events [EvSleep (2 ^ attempt + 1)] (after_call func w))
    end.
Proof.
  simpl. unfold try_catch, bind. rewrite call_spec.
  destruct (fst (op_run func (sys w))) as [a|e]; [reflexivity|].
  destruct (attempt =? N); reflexivity.
Qed.

Lemma retry_attempts_spec (N : Z) :
  forall (remaining : nat) (attempt : Z) (last : option Exn) (w : World)
    res w',
    Z.of_nat remaining + attempt = N + 1 -> (1 <= remaining)%nat ->
    retry_attempts func N remaining attempt last w = (res, w') ->
    exists k : nat,
      (k < remaining)%nat
      /\ (forall j, (j < k)%nat -> failed (outcome_at func j (sys w)))
      /\ trace w'
         = (trace w ++ failed_attempts (op_name func) attempt k
              ++ [EvCall (op_name func)])%list
      /\ same_files w w'
      /\ match outcome_at func k (sys w) with
         | Ok a =>
             res = Ok (Some a) /\ sys w' = state_after func (S k) (sys w)
         | Raise e =>
             Z.of_nat k + attempt = N
             /\ res = Raise e
             /\ sys w'
                = append_error_log
                    (RetryFailedLine (now (state_after func (S k) (sys w)))
                       (exn_type e) (take 80 (exn_msg e)))
                    (state_after func (S k) (sys w))
         end.
Proof.
  induction remaining as [|r IH]; intros attempt last w res w' Hsum Hpos Hrun;
    [lia|].
  rewrite retry_attempts_step in Hrun.
  change (fst (op_run func (sys w))) with (outcome_at func 0 (sys w)) in Hrun.
  destruct (outcome_at func 0 (sys w)) as [a|e] eqn:H0.
  - injection Hrun as <- <-. exists 0%nat. rewrite H0. simpl.
    split; [lia|]. split; [intros j Hj; lia|]. done.
  - destruct (attempt =? N) eqn:Hat.
    + apply Z.eqb_eq in Hat. injection Hrun as <- <-.
      exists 0%nat. rewrite H0. simpl.
      split; [lia|]. split; [intros j Hj; lia|].
      repeat split; try done; lia.
    + apply Z.eqb_neq in Hat.
      apply IH in Hrun; [|lia|lia].
      destruct Hrun as (k & Hk & Hfail & Htr & [Hh He] & Hres).
      simpl in Hfail, Htr, Hh, He, Hres.
      exists (S k). split; [lia|]. split.
      { intros [|j] Hj; [by rewrite H0|].
        rewrite <- outcome_at_shift. apply Hfail. lia. }
      split.
      { rewrite Htr. simpl. rewrite <- !app_assoc. reflexivity. }
      split; [done|].
      rewrite <- outcome_at_shift.
      destruct (outcome_at func k (snd (op_run func (sys w)))) as [a|e'].
      * destruct Hres as [Hr Hs]. split; [done|].
        rewrite Hs. by rewrite state_after_shift.
      * destruct Hres as (Hn & Hr & Hs). split; [lia|]. split; [done|].
        rewrite Hs. by rewrite !state_after_shift.
Qed.





End RetryExecutor.


(* ===================================================================== *)
(** ** The phases of [run] *)
(* ===================================================================== *)

Lemma nonempty_false {A} (l : list A) : nonempty l = false <-> l = [].
Proof. destruct l; simpl; split; congruence. Qed.

Lemma add_events_nil w : add_events [] w = w.
Proof. destruct w. unfold add_events. simpl. by rewrite app_nil_r. Qed.

Lemma new_events_app w w' evs :
  trace w' = (trace w ++ evs)%list -> new_events w w' = evs.
Proof.
  intros H. unfold new_events. rewrite H.
  rewrite List.skipn_app, List.skipn_all, Nat.sub_diag. reflexivity.
Qed.

Lemma failed_attempts_events name k : forall attempt,
  Forall (retry_event name) (failed_attempts name attempt k).
Proof.
  induction k as [|k IH]; intros attempt; simpl; [constructor|].
  constructor; [by left|]. constructor; [right; eauto|]. apply IH.
Qed.

(** A phase never raises, and adds only events of its source. *)
Lemma attempt_source_spec (func : Operation Result) (w : World) :
  exists links status w' evs,
    attempt_source func w = (Ok (links, status), w')
    /\ same_files w w'
    /\ trace w' = (trace w ++ evs)%list
    /\ Forall (retry_event (op_name func)) evs.
Proof.
  unfold attempt_source, try_catch, bind, retry_with_backoff.
  destruct (retry_attempts func 1 (Z.to_nat (1 + 1)) 0 None w)
    as [res w1] eqn:Hrun.
  apply retry_attempts_spec in Hrun; [|lia|simpl; lia].
  destruct Hrun as (k & _ & _ & Htr & Hsame & Hres).
  assert (Hev : Forall (retry_event (op_name func))
                  (failed_attempts (op_name func) 0 k
                     ++ [EvCall (op_name func)])).
  { apply Forall_app. split; [apply failed_attempts_events|].
    constructor; [by left|constructor]. }
  destruct res as [[[[links status] d]|]|e]; unfold ret, raise;
    eexists _, _, w1, _; (split; [reflexivity|]); repeat split;
    eauto; apply Hsame.
Qed.

Lemma skipped_phase (w : World) (status name : string) (P : Prop) :
  exists links st w' evs,
    @ret (list string * string) ([], status) w = (Ok (links, st), w')
    /\ same_files w w' /\ trace w' = (trace w ++ evs)%list
    /\ Forall (retry_event name) evs /\ (P -> evs = []).
Proof.
  exists [], status, w, []. unfold ret, same_files.
  rewrite app_nil_r. repeat split; auto.
Qed.

Lemma fallback_chain_spec (w : World) :
  exists c w' evs,
    fallback_chain w = (Ok c, w')
    /\ same_files w w'
    /\ trace w' = (trace w ++ evs)%list
    /\ chain_trace c evs.
Proof.
  unfold fallback_chain, bind.
  destruct (attempt_source_spec op_mollygram w)
    as (l1 & s1 & w1 & e1 & -> & [Hh1 He1] & Ht1 & Hf1).
  assert (H2 : exists l2 s2 w2 e2,
             (if negb (nonempty l1) then attempt_source op_storiesviewer
              else ret ([], "SKIPPED_SUCCESS")) w1 = (Ok (l2, s2), w2)
             /\ same_files w1 w2 /\ trace w2 = (trace w1 ++ e2)%list
             /\ Forall (retry_event (source_name 1)) e2
             /\ (l1 <> [] -> e2 = [])).
  { destruct (nonempty l1) eqn:Hn1; simpl; [apply skipped_phase|].
    apply nonempty_false in Hn1.
    destruct (attempt_source_spec op_storiesviewer w1)
      as (l2 & s2 & w2 & e2 & -> & Hs & Ht & Hf).
    exists l2, s2, w2, e2. repeat split; auto; try apply Hs. congruence. }
  destruct H2 as (l2 & s2 & w2 & e2 & -> & [Hh2 He2] & Ht2 & Hf2 & Hskip2).
  assert (H3 : exists l3 s3 w3 e3,
             (if negb (nonempty l1) && negb (nonempty l2)
              then attempt_source op_instasaved
              else ret ([], "SKIPPED_SUCCESS")) w2 = (Ok (l3, s3), w3)
             /\ same_files w2 w3 /\ trace w3 = (trace w2 ++ e3)%list
             /\ Forall (retry_event (source_name 2)) e3
             /\ (l1 <> [] \/ l2 <> [] -> e3 = [])).
  { destruct (negb (nonempty l1) && negb (nonempty l2)) eqn:Hn; simpl;
      [|apply skipped_phase].
    apply andb_true_iff in Hn as [Ha Hb].
    apply negb_true_iff, nonempty_false in Ha, Hb.
    destruct (attempt_source_spec op_instasaved w2)
      as (l3 & s3 & w3 & e3 & -> & Hs & Ht & Hf).
    exists l3, s3, w3, e3. repeat split; auto; try apply Hs.
    intros [? | ?]; congruence. }
  destruct H3 as (l3 & s3 & w3 & e3 & -> & [Hh3 He3] & Ht3 & Hf3 & Hskip3).
  assert (H4 : exists l4 s4 w4 e4,
             (if negb (nonempty l1) && negb (nonempty l2)
                 && negb (nonempty l3)
              then attempt_source op_iqsaved
              else ret ([], "NOT_TESTED")) w3 = (Ok (l4, s4), w4)
             /\ same_files w3 w4 /\ trace w4 = (trace w3 ++ e4)%list
             /\ Forall (retry_event (source_name 3)) e4
             /\ (l1 <> [] \/ l2 <> [] \/ l3 <> [] -> e4 = [])).
  { destruct (negb (nonempty l1) && negb (nonempty l2) && negb (nonempty l3))
      eqn:Hn; simpl; [|apply skipped_phase].
    apply andb_true_iff in Hn as [Hn Hc].
    apply andb_true_iff in Hn as [Ha Hb].
    apply negb_true_iff, nonempty_false in Ha, Hb, Hc.
    destruct (attempt_source_spec op_iqsaved w3)
      as (l4 & s4 & w4 & e4 & -> & Hs & Ht & Hf).
    exists l4, s4, w4, e4. repeat split; auto; try apply Hs.
    intros [? | [? | ?]]; congruence. }
  destruct H4 as (l4 & s4 & w4 & e4 & -> & [Hh4 He4] & Ht4 & Hf4 & Hskip4).
  unfold ret. eexists _, w4, (e1 ++ e2 ++ e3 ++ e4)%list.
  split; [reflexivity|]. split.
  { unfold same_files. split; congruence. }
  split.
  { rewrite Ht4, Ht3, Ht2, Ht1. by rewrite <- !app_assoc. }
  exists e1, e2, e3, e4. simpl. repeat split; auto.
Qed.

Lemma deliver_from_spec items : forall i n ids w,
  deliver_from i n items ids w
  = (Ok (ids ++ sent_ids items)%list,
     add_events (delivery_events (env w) i n items) w).
Proof.
  induction items as [|item rest IH]; intros i n ids w.
  - simpl. unfold ret, sent_ids. simpl. by rewrite app_nil_r, add_events_nil.
  - simpl deliver_from. unfold sent_ids. simpl.
    fold (delivery_url item). fold (skipped item).
    destruct (skipped item) eqn:Hs.
    + rewrite IH. reflexivity.
    + unfold bind, ask, send_story, emit. simpl.
      fold (video_url (delivery_url item)).
      rewrite IH. simpl. unfold sent_ids.
      rewrite <- app_assoc. simpl. f_equal.
      unfold add_events. simpl. by rewrite <- app_assoc.
Qed.

Lemma delivery_phase_spec storie w :
  delivery_phase storie w
  = (Ok (ids_of storie), add_events (deliveries_of w storie) w).
Proof.
  unfold delivery_phase, ids_of, deliveries_of, flood.
  destruct (SOGLIA_ALLUVIONE <? Z.of_nat (List.length storie)).
  - unfold ret. by rewrite add_events_nil.
  - destruct (0 <? Z.of_nat (List.length storie)) eqn:Hpos.
    + by rewrite deliver_from_spec.
    + apply Z.ltb_ge in Hpos.
      destruct storie; [|simpl List.length in Hpos; lia].
      unfold ret. simpl. by rewrite add_events_nil.
Qed.

Lemma save_history_spec seen ids w :
  save_history seen ids w = (Ok tt, set_history (saved_history w seen ids) w).
Proof.
  unfold save_history, saved_history, set_history.
  destruct (nonempty ids && disk_space_ok (env w)); [reflexivity|].
  by destruct w.
Qed.

Lemma health_check_spec c w :
  health_check c w = (Ok tt, add_events (alert_events c) w).
Proof.
  unfold health_check, alert_events, send_text, emit, ret.
  destruct (any_success c), (all_no_links c); simpl;
    try by rewrite add_events_nil.
  reflexivity.
Qed.

(** [run] returns, and this is what it leaves. *)
Lemma run_spec (w : World) :
  exists c w1 evs,
    chain_trace c evs
    /\ run w
       = (Ok (report_of w c),
          {| sys := sys w1;
             history_file :=
               saved_history w (load_history w) (ids_of (stories_of w c));
             env := env w;
             trace := (trace w ++ evs ++ deliveries_of w (stories_of w c)
                         ++ alert_events c)%list |}).
Proof.
  unfold run, bind at 1, modify_sys, try_catch, run_body.
  unfold bind at 1. unfold ask at 1. cbv beta iota.
  unfold bind at 1.
  destruct (fallback_chain_spec (set_sys (cleanup_old_logs 7 (sys w)) w))
    as (c & w1 & evs & Hc & [Hh He] & Ht & Hct).
  rewrite Hc. simpl in Hh, He, Ht.
  exists c, w1, evs. split; [done|].
  unfold bind at 1. unfold ask at 1. cbv beta iota.
  unfold bind at 1. rewrite delivery_phase_spec.
  unfold bind at 1. rewrite save_history_spec.
  unfold bind at 1. rewrite health_check_spec.
  unfold ret, report_of, stories_of, candidates_of, ids_of, deliveries_of,
    flood, load_history, saved_history, set_history, add_events. simpl.
  rewrite He, Hh, Ht. simpl. rewrite <- !app_assoc. reflexivity.
Qed.

Lemma run_summary (w : World) :
  exists rep evs,
    fst (run w) = Ok rep
    /\ chain_trace (chain rep) evs
    /\ seen_ids rep = load_history w
    /\ storie_da_processare rep
       = new_stories (set_of (load_history w)) (tutti_i_link rep)
    /\ ids_to_add rep = ids_of (storie_da_processare rep)
    /\ new_events w (snd (run w))
       = (evs ++ deliveries_of w (storie_da_processare rep)
            ++ alert_events (chain rep))%list
    /\ history_file (snd (run w))
       = saved_history w (load_history w) (ids_to_add rep).
Proof.
  destruct (run_spec w) as (c & w1 & evs & Hct & Hrun).
  exists (report_of w c), evs. rewrite Hrun. simpl.
  repeat split; try done.
  apply new_events_app. reflexivity.
Qed.

Lemma set_add_union x (X : gset string) : set_add x X = {[x]} ∪ X.
Proof.
  destruct X as [m]. unfold set_add. simpl.
  change ({[x]} ∪ Mapset m) with (Mapset ({[x := ()]} ∪ m) : gset string).
  by rewrite insert_union_singleton_l.
Qed.

Lemma elem_of_set_of (l : list string) x : x ∈ set_of l <-> In x l.
Proof.
  induction l as [|y l IH]; simpl.
  - split; [|done]. intros H. by apply not_elem_of_empty in H.
  - rewrite set_add_union, elem_of_union, elem_of_singleton, IH.
    split; intros [H | H]; auto.
Qed.

Lemma new_stories_sound links : forall (seen : gset string) item,
  In item (new_stories seen links) ->
  story_id item = get_clean_id (story_url item)
  /\ In (story_url item) links
  /\ story_id item ∉ seen.
Proof.
  induction links as [|url rest IH]; intros seen item Hin; simpl in Hin;
    [done|].
  destruct (truthy (get_clean_id url)
            && negb (bool_decide (get_clean_id url ∈ seen))) eqn:Hc.
  - destruct Hin as [<- | Hin].
    + simpl. apply andb_true_iff in Hc as [_ Hc].
      apply negb_true_iff, bool_decide_eq_false in Hc. auto.
    + apply IH in Hin as (H1 & H2 & H3). split; [done|]. split; [by right|].
      intros Hs. apply H3. rewrite set_add_union. apply elem_of_union.
      by right.
  - apply IH in Hin as (H1 & H2 & H3). split; [done|]. split; [by right|done].
Qed.

Lemma new_stories_none links : forall seen : gset string,
  (forall url, In url links -> get_clean_id url ∈ seen) ->
  new_stories seen links = [].
Proof.
  induction links as [|url rest IH]; intros seen H; simpl; [done|].
  assert (Hin : get_clean_id url ∈ seen) by (apply H; by left).
  rewrite (bool_decide_eq_true_2 _ Hin). rewrite andb_false_r.
  apply IH. intros u Hu. apply H. by right.
Qed.

Lemma delivery_events_sound e items : forall i n ev,
  In ev (delivery_events e i n items) ->
  exists item text media is_video,
    ev = EvDeliver item text media is_video /\ In item items.
Proof.
  induction items as [|item rest IH]; intros i n ev Hin; simpl in Hin; [done|].
  destruct (skipped item).
  - apply IH in Hin as (it & t & m & v & -> & Hi). eauto 10 using in_cons.
  - destruct Hin as [<- | Hin]; [eauto 10 using in_eq|].
    apply IH in Hin as (it & t & m & v & -> & Hi). eauto 10 using in_cons.
Qed.

Lemma chain_trace_events c evs ev :
  chain_trace c evs -> In ev evs ->
  (exists k, (k < 4)%nat /\ ev = EvCall (source_name k))
  \/ exists n, ev = EvSleep n.
Proof.
  intros (e1 & e2 & e3 & e4 & -> & H1 & H2 & H3 & H4 & _) Hin.
  rewrite !in_app_iff in Hin.
  destruct Hin as [Hin | [Hin | [Hin | Hin]]];
    [ eapply List.Forall_forall in H1 | eapply List.Forall_forall in H2
    | eapply List.Forall_forall in H3 | eapply List.Forall_forall in H4 ];
    try exact Hin.
  - destruct H1 as [-> | ?]; [left; exists 0%nat; split; [lia|done] | by right].
  - destruct H2 as [-> | ?]; [left; exists 1%nat; split; [lia|done] | by right].
  - destruct H3 as [-> | ?]; [left; exists 2%nat; split; [lia|done] | by right].
  - destruct H4 as [-> | ?]; [left; exists 3%nat; split; [lia|done] | by right].
Qed.

Lemma alert_events_sound c ev :
  In ev (alert_events c) -> exists m v i, ev = EvAlert (CriticalAlert m v i).
Proof.
  unfold alert_events.
  destruct (negb (any_success c) && negb (all_no_links c)); simpl; [|done].
  intros [<- | []]. eauto.
Qed.

Lemma deliveries_sound w rep item text media is_video :
  storie_da_processare rep
  = new_stories (set_of (load_history w)) (tutti_i_link rep) ->
  In (EvDeliver item text media is_video)
     (deliveries_of w (storie_da_processare rep)) ->
  story_id item = get_clean_id (story_url item)
  /\ In (story_url item) (tutti_i_link rep)
  /\ ~ In (story_id item) (load_history w).
Proof.
  intros Hst Hin. unfold deliveries_of in Hin.
  destruct (flood (storie_da_processare rep)); [done|].
  apply delivery_events_sound in Hin as (it & t & m & v & Heq & Hi).
  injection Heq as <- _ _ _.
  rewrite Hst in Hi. apply new_stories_sound in Hi as (H1 & H2 & H3).
  split; [done|]. split; [done|].
  intros Hl. apply H3. by apply elem_of_set_of.
Qed.

(** A story that a run sends has the clean id of its link, and that id is
    not in the ledger read at the start. *)
Lemma delivery_in_run w item text media is_video :
  In (EvDeliver item text media is_video) (new_events w (snd (run w))) ->
  story_id item = get_clean_id (story_url item)
  /\ ~ In (story_id item) (load_history w).
Proof.
  destruct (run_summary w) as (rep & evs & _ & Hct & _ & Hst & _ & Hev & _).
  rewrite Hev, !in_app_iff. intros [Hin | [Hin | Hin]].
  - eapply chain_trace_events in Hin; [|done].
    destruct Hin as [(k & _ & ?) | (n & ?)]; discriminate.
  - eapply deliveries_sound in Hin; [|done]. tauto.
  - apply alert_events_sound in Hin as (m & v & i & ?). discriminate.
Qed.

(* ===================================================================== *)
(** ** Properties of a run *)
(* ===================================================================== *)

(** C1.  A run sends no story whose clean id is in the ledger
    ([history.txt]) that it read when it started: every story sent carries
    the clean id of its link, and that id is not in the ledger; so no
    delivery is made for a link whose clean id is in the ledger; and a run
    that starts from the ledger left by an earlier run sends no story whose
    id that ledger has. *)
Theorem ledgered_ids_not_delivered :
  (forall w item text media is_video,
     In (EvDeliver item text media is_video) (new_events w (snd (run w))) ->
     story_id item = get_clean_id (story_url item)
     /\ ~ In (story_id item) (load_history w))
  /\ (forall w url item text media is_video,
        In (get_clean_id url) (load_history w) ->
        In (EvDeliver item text media is_video) (new_events w (snd (run w))) ->
        story_url item <> url)
  /\ (forall w w2 item text media is_video,
        history_file w2 = history_file (snd (run w)) ->
        In (EvDeliver item text media is_video)
           (new_events w2 (snd (run w2))) ->
        ~ In (story_id item) (load_history (snd (run w)))).
Proof.
  split; [|split].
  - apply delivery_in_run.
  - intros w url item text media is_video Hold Hin Heq.
    apply delivery_in_run in Hin as [Hid Hnew]. subst url.
    rewrite <- Hid in Hold. done.
  - intros w w2 item text media is_video Hh Hin.
    apply delivery_in_run in Hin as [_ Hnew].
    unfold load_history in *. by rewrite <- Hh.
Qed.

(** C1 at work: of three stories on Mollygram, [s1.jpg] being in the
    ledger, [s0.jpg] is sent, and the delivery is not made for the link of
    [s1.jpg]. *)
Lemma ledgered_ids_not_delivered_witness :
  In (EvDeliver (story 0) (StoryCaption 1 2) (story_url (story 0)) false)
     (new_events three_stories (snd (run three_stories)))
  /\ In (get_clean_id (story_url (story 1))) (load_history three_stories)
  /\ ~ In (story_id (story 0)) (load_history three_stories)
  /\ story_url (story 0) <> story_url (story 1).
Proof.
  assert (Hin : In (EvDeliver (story 0) (StoryCaption 1 2)
                      (story_url (story 0)) false)
                   (new_events three_stories (snd (run three_stories))))
    by (vm_compute; auto).
  assert (Hold : In (get_clean_id (story_url (story 1)))
                    (load_history three_stories))
    by (vm_compute; auto).
  destruct ledgered_ids_not_delivered as (H1 & H2 & _).
  split; [exact Hin|]. split; [exact Hold|]. split.
  - exact (proj2 (H1 _ _ _ _ _ Hin)).
  - exact (H2 _ _ _ _ _ _ Hold Hin).
Defined.

Lemma source_names_distinct i j :
  (i < 4)%nat -> (j < 4)%nat -> source_name i = source_name j -> i = j.
Proof.
  intros Hi Hj.
  destruct i as [|[|[|[|i]]]]; try lia;
    destruct j as [|[|[|[|j]]]]; try lia; simpl; try done; discriminate.
Qed.

Lemma chain_trace_skips c evs i j :
  chain_trace c evs -> (i < j)%nat -> (j < 4)%nat ->
  source_links c i <> [] -> ~ In (EvCall (source_name j)) evs.
Proof.
  intros (e1 & e2 & e3 & e4 & -> & H1 & H2 & H3 & H4 & S2 & S3 & S4) Hij Hj Hl.
  assert (Hname : forall k e, (k < 4)%nat ->
                    Forall (retry_event (source_name k)) e ->
                    In (EvCall (source_name j)) e -> k = j).
  { intros k e Hk Hf Hin. eapply List.Forall_forall in Hf; [|exact Hin].
    destruct Hf as [Heq | (n & ?)]; [|discriminate].
    injection Heq as Heq. symmetry. by apply source_names_distinct. }
  rewrite !in_app_iff. intros [Hin | [Hin | [Hin | Hin]]].
  - apply (Hname 0%nat) in Hin; [lia|lia|done].
  - pose proof (Hname 1%nat _ ltac:(lia) H2 Hin) as <-.
    assert (i = 0)%nat as -> by lia. simpl in Hl. rewrite (S2 Hl) in Hin. done.
  - pose proof (Hname 2%nat _ ltac:(lia) H3 Hin) as <-.
    assert (He : e3 = []).
    { apply S3. destruct i as [|[|i]]; [by left|by right|lia]. }
    rewrite He in Hin. done.
  - pose proof (Hname 3%nat _ ltac:(lia) H4 Hin) as <-.
    assert (He : e4 = []).
    { apply S4.
      destruct i as [|[|[|i]]]; [by left|by right; left|by right; right|lia]. }
    rewrite He in Hin. done.
Qed.

(** C2.  In every run, when a source of the priority order Mollygram,
    StoriesViewer, Instasaved, IQSaved has brought at least one link, no
    source after it in that order is invoked. *)
Theorem lower_priority_sources_not_attempted (w : World) :
  exists rep,
    fst (run w) = Ok rep
    /\ forall i j : nat,
         (i < j)%nat -> (j < 4)%nat -> source_links (chain rep) i <> [] ->
         ~ In (EvCall (source_name j)) (new_events w (snd (run w))).
Proof.
  destruct (run_summary w) as (rep & evs & Hrun & Hct & _ & Hst & _ & Hev & _).
  exists rep. split; [done|]. intros i j Hij Hj Hl.
  rewrite Hev, !in_app_iff. intros [Hin | [Hin | Hin]].
  - by eapply chain_trace_skips in Hin.
  - unfold deliveries_of in Hin. destruct (flood _); [done|].
    apply delivery_events_sound in Hin as (it & t & m & v & ? & _).
    discriminate.
  - apply alert_events_sound in Hin as (m & v & k & ?). discriminate.
Qed.

(** C2 at work: Mollygram brings three links, and neither StoriesViewer nor
    IQSaved is invoked. *)
Lemma lower_priority_sources_not_attempted_witness :
  exists rep,
    fst (run three_stories) = Ok rep
    /\ source_links (chain rep) 0 <> []
    /\ ~ In (EvCall (source_name 1))
            (new_events three_stories (snd (run three_stories)))
    /\ ~ In (EvCall (source_name 3))
            (new_events three_stories (snd (run three_stories))).
Proof.
  destruct (lower_priority_sources_not_attempted three_stories)
    as (rep & Hrun & H).
  exists rep. split; [exact Hrun|].
  assert (Hl : source_links (chain rep) 0 <> []).
  { vm_compute in Hrun. injection Hrun as <-. simpl. discriminate. }
  split; [exact Hl|]. split; apply (H 0%nat); try lia; exact Hl.
Defined.


Lemma in_last_entries (n : nat) (seen ids : list string) x :
  (List.length ids <= n)%nat -> In x ids ->
  In x (last_entries n (seen ++ ids)).
Proof.
  intros Hlen Hin. unfold last_entries.
  rewrite List.length_app, List.skipn_app.
  apply in_app_iff. right.
  replace (List.length seen + List.length ids - n - List.length seen)%nat
    with 0%nat by lia.
  exact Hin.
Qed.






Lemma alerted_rule w rep :
  fst (run w) = Ok rep ->
  alerted w = negb (any_success (chain rep)) && negb (all_no_links (chain rep)).
Proof.
  intros Hrep.
  destruct (run_summary w) as (rep' & evs & Hrun & Hct & _ & Hst & _ & Hev & _).
  rewrite Hrun in Hrep. injection Hrep as ->.
  unfold alerted. rewrite Hev, !existsb_app.
  assert (H1 : existsb is_critical_alert evs = false).
  { apply not_true_is_false. intros H.
    apply existsb_exists in H as (e & Hin & He).
    eapply chain_trace_events in Hin; [|done].
    destruct Hin as [(k & _ & ->) | (n & ->)]; discriminate. }
  assert (H2 : existsb is_critical_alert
                 (deliveries_of w (storie_da_processare rep)) = false).
  { apply not_true_is_false. intros H.
    apply existsb_exists in H as (e & Hin & He).
    unfold deliveries_of in Hin. destruct (flood _); [done|].
    apply delivery_events_sound in Hin as (it & t & m & v & -> & _).
    discriminate. }
  rewrite H1, H2. simpl. unfold alert_events.
  by destruct (negb (any_success (chain rep))
               && negb (all_no_links (chain rep))).
Qed.

(** C10.  A run without new stories, because the clean id of every
    candidate is in the ledger or because there is no candidate, leaves
    [history.txt] as it was. *)
Theorem ledger_untouched_without_new_ids (w : World) :
  exists rep,
    fst (run w) = Ok rep
    /\ ((forall url, In url (tutti_i_link rep) ->
                     In (get_clean_id url) (seen_ids rep)) ->
        history_after w = history_file w)
    /\ (storie_da_processare rep = [] -> history_after w = history_file w).
Proof.
  destruct (run_summary w)
    as (rep & evs & Hrun & Hct & Hseen & Hst & Hids & Hev & Hh).
  exists rep. split; [done|].
  assert (Hempty : storie_da_processare rep = [] ->
                   history_after w = history_file w).
  { intros He. unfold history_after. rewrite Hh, Hids, He. reflexivity. }
  split; [|done].
  intros Hall. apply Hempty. rewrite Hst. apply new_stories_none.
  intros url Hin. apply elem_of_set_of.
  rewrite <- Hseen. by apply Hall.
Qed.

(** C10 at work: the two stories on Mollygram are both in the ledger, and
    the ledger stays as it was. *)
Lemma ledger_untouched_without_new_ids_witness :
  exists rep,
    fst (run known_stories) = Ok rep
    /\ tutti_i_link rep = [story_url (story 0); story_url (story 1)]
    /\ (forall url, In url (tutti_i_link rep) ->
                    In (get_clean_id url) (seen_ids rep))
    /\ history_after known_stories = Some ["s0.jpg"; "s1.jpg"].
Proof.
  destruct (ledger_untouched_without_new_ids known_stories)
    as (rep & Hrun & H & _).
  exists rep. split; [exact Hrun|].
  assert (Hrep : tutti_i_link rep = [story_url (story 0); story_url (story 1)]
                 /\ seen_ids rep = ["s0.jpg"; "s1.jpg"]).
  { vm_compute in Hrun. injection Hrun as <-. split; reflexivity. }
  destruct Hrep as [Hlinks Hseen].
  assert (Hall : forall url, In url (tutti_i_link rep) ->
                             In (get_clean_id url) (seen_ids rep)).
  { rewrite Hlinks, Hseen.
    intros url [<- | [<- | []]]; vm_compute; auto. }
  split; [exact Hlinks|]. split; [exact Hall|].
  exact (H Hall).
Defined.

(* ===================================================================== *)
(** ** Further properties: clean ids *)
(* ===================================================================== *)

Lemma startswith_nil s : startswith s "" = true.
Proof. by destruct s. Qed.

Lemma startswith_char (c : ascii) s :
  startswith s (String c "")
  = match s with String a _ => Ascii.eqb c a | EmptyString => false end.
Proof.
  destruct s as [|a s]; simpl; [done|].
  by rewrite startswith_nil, andb_true_r.
Qed.

Lemma contains_char c s : contains s (String c "") = negb (lacks c s).
Proof.
  induction s as [|a s IH]; [reflexivity|].
  unfold lacks in *. simpl. rewrite startswith_nil, andb_true_r, IH.
  rewrite (Ascii.eqb_sym c a). destruct (Ascii.eqb a c); simpl; [done|].
  reflexivity.
Qed.

Lemma split_from_pieces (P : ascii -> bool) sep : forall s skip,
  all_chars P s = true ->
  all_chars P (split_from sep skip s).1 = true
  /\ Forall (fun p => all_chars P p = true) (split_from sep skip s).2.
Proof.
  induction s as [|a s IH]; intros skip Hs; [split; [done|constructor]|].
  cbn [all_chars] in Hs. apply andb_true_iff in Hs as [Ha Hs].
  cbn [split_from].
  destruct skip as [|k]; [|by apply IH].
  destruct (startswith (String a s) sep).
  - pose proof (IH (String.length sep - 1)%nat Hs) as [H1 H2].
    destruct (split_from sep (String.length sep - 1) s) as [h t].
    simpl in *. split; [done|]. by constructor.
  - pose proof (IH 0%nat Hs) as [H1 H2].
    destruct (split_from sep 0 s) as [h t]. simpl in *.
    split; [|done]. by rewrite Ha, H1.
Qed.

Lemma split_char_pieces c : forall s,
  lacks c (split_from (String c "") 0 s).1 = true
  /\ Forall (fun p => lacks c p = true) (split_from (String c "") 0 s).2.
Proof.
  induction s as [|a s [IH1 IH2]]; [split; [done|constructor]|].
  cbn [split_from]. rewrite startswith_char. cbn [String.length Nat.sub].
  destruct (split_from (String c "") 0 s) as [h t]. simpl in IH1, IH2.
  destruct (Ascii.eqb c a) eqn:E; simpl.
  - split; [done|]. by constructor.
  - split; [|done]. unfold lacks in *. simpl.
    rewrite (Ascii.eqb_sym a c), E. simpl. done.
Qed.

Lemma last_Forall {A} (P : A -> Prop) (l : list A) d :
  P d -> Forall P l -> P (List.last l d).
Proof.
  intros Hd Hl. revert d Hd. induction Hl as [|x l Hx Hl IH]; intros d Hd;
    [done|].
  destruct l as [|y l]; [done|]. change (P (List.last (y :: l) d)). 
  apply IH. done.
Qed.

Lemma all_chars_drop P : forall n s,
  all_chars P s = true -> all_chars P (drop n s) = true.
Proof.
  induction n as [|n IH]; intros [|a s] H; simpl; try done.
  simpl in H. apply andb_true_iff in H as [_ H]. by apply IH.
Qed.

Lemma all_chars_take P : forall n s,
  all_chars P s = true -> all_chars P (take n s) = true.
Proof.
  induction n as [|n IH]; intros [|a s] H; simpl; try done.
  simpl in H. apply andb_true_iff in H as [Ha H]. by rewrite Ha, IH.
Qed.

Lemma split_last_lacks c s : lacks c (split_last s (String c "")) = true.
Proof.
  unfold split_last. pose proof (split_char_pieces c s) as [H1 H2].
  destruct (split_from (String c "") 0 s) as [h t]. simpl in *.
  by apply last_Forall.
Qed.

Lemma last_segment_lacks url : lacks "/" (last_segment url) = true.
Proof.
  unfold last_segment, split_first.
  apply split_from_pieces, split_last_lacks.
Qed.

Lemma segment_id_lacks url : lacks "/" (segment_id url) = true.
Proof.
  unfold segment_id. destruct (contains url "/") eqn:E.
  - apply last_segment_lacks.
  - rewrite contains_char in E. apply negb_false_iff in E.
    unfold suffix. by apply all_chars_drop.
Qed.

(** X1.  The clean id of a link never contains a slash, whatever the link
    and whichever branch of [get_clean_id] computes it (the [file] parameter
    of an Instasaved link, the last segment of the link, its last 20
    characters, or the fallback taken when parsing fails). *)
Theorem clean_id_has_no_slash url : contains (get_clean_id url) "/" = false.
Proof.
  rewrite contains_char. apply negb_false_iff. unfold get_clean_id.
  destruct (contains url "instasaved.net/download-file");
    [|apply segment_id_lacks].
  destruct (urlparse url) as [parsed|].
  - destruct (first_value _ _); apply segment_id_lacks.
  - apply all_chars_take, last_segment_lacks.
Qed.

(** Splitting a text that is followed by a tail without the separator *)
Lemma split_from_lacks c r :
  lacks c r = true -> split_from (String c "") 0 r = (r, []).
Proof.
  induction r as [|a r IH]; intros H; [reflexivity|].
  unfold lacks in H. simpl in H. apply andb_true_iff in H as [Ha H].
  cbn [split_from]. rewrite startswith_char.
  rewrite (Ascii.eqb_sym c a). apply negb_true_iff in Ha. rewrite Ha.
  by rewrite (IH H).
Qed.

Lemma last_cons_ne {A} (x : A) l d d' :
  List.last (x :: l) d = List.last (x :: l) d'.
Proof.
  revert x. induction l as [|y l IH]; intros x; [reflexivity|].
  change (List.last (y :: l) d = List.last (y :: l) d'). apply IH.
Qed.

Lemma split_last_app c r : forall u,
  lacks c r = true ->
  split_last (u ++ r) (String c "") = split_last u (String c "") ++ r.
Proof.
  intros u Hr. unfold split_last.
  assert (H : forall u,
             let '(h, t) := split_from (String c "") 0 (u ++ r) in
             let '(h0, t0) := split_from (String c "") 0 u in
             (t0 = [] /\ t = [] /\ h = h0 ++ r)
             \/ (t0 <> [] /\ t <> [] /\ h = h0
                 /\ forall d d', List.last t d = List.last t0 d' ++ r)).
  { clear u. induction u as [|a u IH].
    - change ("" ++ r) with r. rewrite (split_from_lacks c r Hr). simpl.
      by left.
    - change (String a u ++ r) with (String a (u ++ r)).
      cbn [split_from]. rewrite !startswith_char. cbn [String.length Nat.sub].
      destruct (split_from (String c "") 0 (u ++ r)) as [h t].
      destruct (split_from (String c "") 0 u) as [h0 t0].
      destruct (Ascii.eqb c a).
      + right. split; [done|]. split; [done|]. split; [done|].
        intros d d'.
        destruct IH as [(-> & -> & ->) | (H0 & H1 & -> & Hl)]; [done|].
        destruct t as [|x t]; [done|]. destruct t0 as [|x0 t0]; [done|].
        change (List.last (x :: t) d = List.last (x0 :: t0) d' ++ r).
        apply Hl.
      + destruct IH as [(-> & -> & ->) | (H0 & H1 & -> & Hl)].
        * by left.
        * right. done. }
  specialize (H u).
  destruct (split_from (String c "") 0 (u ++ r)) as [h t].
  destruct (split_from (String c "") 0 u) as [h0 t0].
  destruct H as [(-> & -> & ->) | (H0 & H1 & -> & Hl)]; [done|]. apply Hl.
Qed.

Lemma split_first_app c q : forall x,
  split_first (x ++ String c q) (String c "") = split_first x (String c "").
Proof.
  unfold split_first. induction x as [|a x IH].
  - change ("" ++ String c q) with (String c q).
    cbn [split_from]. rewrite startswith_char, Ascii.eqb_refl.
    reflexivity.
  - change (String a x ++ String c q) with (String a (x ++ String c q)).
    cbn [split_from]. rewrite !startswith_char.
    destruct (Ascii.eqb c a); [reflexivity|].
    destruct (split_from (String c "") 0 (x ++ String c q)) as [h t].
    destruct (split_from (String c "") 0 x) as [h0 t0].
    simpl in *. by rewrite IH.
Qed.

Lemma startswith_app_char c r : forall x pat,
  startswith (x ++ String c r) pat = true ->
  startswith x pat = true \/ lacks c pat = false.
Proof.
  induction x as [|b x IH]; intros [|a p] H; simpl in *; auto.
  - apply andb_true_iff in H as [Ha _]. right. unfold lacks. simpl.
    by rewrite Ha.
  - apply andb_true_iff in H as [Ha H]. rewrite Ha. simpl.
    destruct (IH p H) as [H' | H']; [by left|right].
    unfold lacks in *. simpl. by rewrite H', andb_false_r.
Qed.

Lemma startswith_chars d : forall s pat,
  startswith s pat = true -> lacks d s = true -> lacks d pat = true.
Proof.
  induction s as [|b s IH]; intros [|a p] H Hs; simpl in *; try done.
  apply andb_true_iff in H as [Ha H]. apply Ascii.eqb_eq in Ha. subst b.
  unfold lacks in *. simpl in *. apply andb_true_iff in Hs as [-> Hs].
  simpl. by apply IH.
Qed.

Lemma contains_chars d : forall s pat,
  contains s pat = true -> lacks d s = true -> lacks d pat = true.
Proof.
  induction s as [|b s IH]; intros pat H Hs.
  - cbn [contains] in H. rewrite orb_false_r in H.
    by apply (startswith_chars d "" pat).
  - cbn [contains] in H. apply orb_true_iff in H as [H | H].
    + by apply (startswith_chars d (String b s) pat).
    + apply IH; [done|]. unfold lacks in *. simpl in Hs.
      by apply andb_true_iff in Hs as [_ Hs].
Qed.

Lemma contains_app_char c r pat : forall x,
  contains (x ++ String c r) pat = true ->
  contains x pat = true \/ lacks c pat = false
  \/ contains r pat = true.
Proof.
  induction x as [|b x IH]; intros H.
  - change ("" ++ String c r) with (String c r) in H. cbn [contains] in H.
    apply orb_true_iff in H as [H | H]; [|auto].
    apply (startswith_app_char c r "" pat) in H as [H | H]; [|auto].
    left. cbn [contains]. by rewrite H.
  - change (String b x ++ String c r) with (String b (x ++ String c r)) in H.
    cbn [contains] in H. apply orb_true_iff in H as [H | H].
    + apply (startswith_app_char c r (String b x) pat) in H as [H | H];
        [|auto].
      left. cbn [contains]. by rewrite H.
    + destruct (IH H) as [H' | H']; [|auto].
      left. cbn [contains]. by rewrite H', orb_true_r.
Qed.

(** X2.  The clean id does not depend on the query string: for a link [u]
    with a slash that is not an Instasaved download link, and a query [q]
    without slash, [u?q] has the clean id of [u]. *)
Theorem clean_id_ignores_query (u q : string) :
  contains u "/" = true ->
  contains u "instasaved.net/download-file" = false ->
  contains q "/" = false ->
  get_clean_id (u ++ "?" ++ q) = get_clean_id u.
Proof.
  intros Hu Hi Hq.
  assert (Hq' : lacks "/" q = true).
  { rewrite contains_char in Hq. by apply negb_false_iff in Hq. }
  assert (Hi' : contains (u ++ "?" ++ q) "instasaved.net/download-file"
                = false).
  { destruct (contains (u ++ "?" ++ q) "instasaved.net/download-file")
      eqn:E; [|done].
    apply contains_app_char in E as [E | [E | E]]; [congruence|done|].
    apply (contains_chars "/") in E; [done|done]. }
  assert (Hs : contains (u ++ "?" ++ q) "/" = true).
  { rewrite contains_char in *. apply negb_true_iff in Hu.
    apply negb_true_iff. clear -Hu. induction u as [|a u IH]; [done|].
    unfold lacks in *. simpl in *.
    apply andb_false_iff in Hu as [-> | Hu]; [done|].
    by rewrite IH, andb_false_r. }
  unfold get_clean_id. rewrite Hi, Hi'. unfold segment_id.
  rewrite Hu, Hs. unfold last_segment.
  rewrite split_last_app.
  - apply split_first_app.
  - unfold lacks in *. simpl. done.
Qed.

(** X2 at work: a signed link has the clean id of the link without its
    signature. *)
Lemma clean_id_ignores_query_witness :
  get_clean_id ("https://cdninstagram.com/v/a.jpg" ++ "?" ++ "sig=1&e=2")
  = get_clean_id "https://cdninstagram.com/v/a.jpg"
  /\ get_clean_id "https://cdninstagram.com/v/a.jpg" = "a.jpg".
Proof.
  split; [|reflexivity].
  apply (clean_id_ignores_query "https://cdninstagram.com/v/a.jpg"
           "sig=1&e=2"); reflexivity.
Defined.

(* ===================================================================== *)
(** ** Further properties: the validator *)
(* ===================================================================== *)
Lemma unique_links_spec l : forall seen : gset string,
  List.NoDup (unique_links seen l)
  /\ forall x, In x (unique_links seen l) <-> In x l /\ x ∉ seen.
Proof.
  induction l as [|y l IH]; intros seen; simpl.
  - split; [constructor|]. tauto.
  - destruct (bool_decide (y ∈ seen)) eqn:E.
    + apply bool_decide_eq_true in E. destruct (IH seen) as [H1 H2].
      split; [done|]. intros x. rewrite H2. split.
      * tauto.
      * intros [[-> | Hx] Hn]; [done|tauto].
    + apply bool_decide_eq_false in E.
      destruct (IH (set_add y seen)) as [H1 H2]. split.
      * constructor; [|done]. rewrite H2, set_add_union.
        intros [_ Hn]. apply Hn. apply elem_of_union. left.
        by apply elem_of_singleton.
      * intros x. simpl. rewrite H2, set_add_union, elem_of_union,
          elem_of_singleton.
        split.
        -- intros [<- | [Hx Hn]]; [tauto|]. split; [tauto|]. tauto.
        -- intros [[<- | Hx] Hn]; [tauto|].
           destruct (decide (x = y)) as [->|Hne]; [tauto|]. right. tauto.
Qed.

Lemma in_omap {A B} (f : A -> option B) l y :
  In y (omap f l) <-> exists x, In x l /\ f x = Some y.
Proof.
  rewrite <- list_elem_of_In, list_elem_of_omap.
  split; intros (x & H1 & H2); exists x; split; try done;
    by apply list_elem_of_In.
Qed.

Lemma validate_links_spec (links : list string) :
  List.NoDup (validate_links links)
  /\ forall u,
       In u (validate_links links)
       <-> exists raw, In raw links /\ validate_link raw = Some u.
Proof.
  unfold validate_links.
  destruct (unique_links_spec (omap validate_link links) ∅) as [H1 H2].
  split; [done|]. intros u. rewrite H2, in_omap. split.
  - tauto.
  - intros H. split; [done|]. apply not_elem_of_empty.
Qed.

(** X3.  The output of [validate_links] has no duplicates, and it holds
    exactly the links that one iteration of the loop accepts for some link
    of the input. *)
Theorem validate_links_unique (links : list string) :
  NoDup (validate_links links)
  /\ forall u,
       In u (validate_links links)
       <-> exists raw, In raw links /\ validate_link raw = Some u.
Proof.
  destruct (validate_links_spec links) as [H1 H2].
  split; [by apply NoDup_ListNoDup|exact H2].
Qed.

Lemma validate_url_format_len u :
  validate_url_format u = true -> 10 <= len u.
Proof.
  unfold validate_url_format. destruct (urlparse u); [|done].
  intros H. apply andb_true_iff in H as [_ H]. by apply Z.leb_le.
Qed.

Lemma validate_link_sound raw u :
  validate_link raw = Some u ->
  validate_url_format u = true
  /\ (startswith u "http://" || startswith u "https://") = true
  /\ existsb (contains (lower u)) instagram_patterns = true.
Proof.
  unfold validate_link.
  destruct (negb (truthy raw)); [done|].
  destruct (len (strip raw) <? 10); [done|].
  match goal with |- match ?c with _ => _ end = _ -> _ =>
    destruct c as [link|]; [|done] end.
  destruct (validate_url_format link) eqn:E1; [|done]. cbn [negb].
  destruct (existsb (contains (lower link)) instagram_patterns) eqn:E2;
    [|done]. cbn [negb].
  destruct (startswith link "http://" || startswith link "https://") eqn:E3;
    [|done]. cbn [negb].
  intros [= <-]. done.
Qed.

(** X4.  Every link that [validate_links] returns has a scheme and a host,
    at least 10 characters, starts with [http://] or [https://], and
    contains, in lower case, one of the Instagram patterns. *)
Theorem validate_links_sound (links : list string) :
  Forall (fun u =>
            validate_url_format u = true
            /\ 10 <= len u
            /\ (startswith u "http://" || startswith u "https://") = true
            /\ existsb (contains (lower u)) instagram_patterns = true)
    (validate_links links).
Proof.
  apply List.Forall_forall. intros u Hu.
  apply validate_links_spec in Hu as (raw & _ & Hv).
  apply validate_link_sound in Hv as (H1 & H2 & H3).
  split; [done|]. split; [by apply validate_url_format_len|]. done.
Qed.

(** Where an accepted link comes from *)
Lemma validate_link_origin raw u :
  validate_link raw = Some u ->
  (contains (strip raw) "cdn.iqsaved.com" = true
   /\ u = extract_real_url (strip raw) /\ u <> strip raw)
  \/ (contains (strip raw) "cdn.iqsaved.com" = false
      /\ (contains (strip raw) "instasaved.net"
          && contains (strip raw) "download-file") = true
      /\ u = extract_instasaved_url (strip raw) /\ u <> strip raw)
  \/ (contains (strip raw) "cdn.iqsaved.com" = false
      /\ (contains (strip raw) "instasaved.net"
          && contains (strip raw) "download-file") = false
      /\ u = strip raw).
Proof.
  unfold validate_link.
  destruct (negb (truthy raw)); [done|].
  destruct (len (strip raw) <? 10); [done|].
  set (link := strip raw).
  assert (Hc : forall dec v, convert_with dec link = Some v ->
                             v = dec link /\ v <> link).
  { intros dec v. unfold convert_with.
    destruct (negb (truthy (dec link))); [done|]. simpl.
    destruct (String.eqb (dec link) link) eqn:E; [done|]. simpl.
    destruct (negb (validate_url_format (dec link))); [done|].
    intros [= <-]. split; [done|]. by apply String.eqb_neq. }
  destruct (contains link "cdn.iqsaved.com") eqn:E1.
  - destruct (convert_with extract_real_url link) as [v|] eqn:Ev; [|done].
    apply Hc in Ev as [-> Hne]. intros H. left.
    destruct (negb _); [done|]. destruct (negb _); [done|].
    destruct (negb _); [done|]. injection H as <-. done.
  - destruct (contains link "instasaved.net" && contains link "download-file")
      eqn:E2.
    + destruct (convert_with extract_instasaved_url link) as [v|] eqn:Ev;
        [|done].
      apply Hc in Ev as [-> Hne]. intros H. right. left.
      destruct (negb _); [done|]. destruct (negb _); [done|].
      destruct (negb _); [done|]. injection H as <-. done.
    + intros H. right. right.
      destruct (negb _); [done|]. destruct (negb _); [done|].
      destruct (negb _); [done|]. injection H as <-. done.
Qed.

(** X5.  [validate_links] rewrites the links of the two proxy hosts that it
    knows and no other: a returned link is a link of the input, stripped,
    when that link is neither on [cdn.iqsaved.com] nor an Instasaved
    download link; otherwise it is what [extract_real_url] (or
    [extract_instasaved_url]) makes of the stripped link, and differs from
    it. *)
Theorem validate_links_normalises_proxies_only (links : list string) :
  Forall (fun u =>
            exists raw,
              In raw links
              /\ if contains (strip raw) "cdn.iqsaved.com"
                 then u = extract_real_url (strip raw) /\ u <> strip raw
                 else if contains (strip raw) "instasaved.net"
                         && contains (strip raw) "download-file"
                 then u = extract_instasaved_url (strip raw)
                      /\ u <> strip raw
                 else u = strip raw)
    (validate_links links).
Proof.
  apply List.Forall_forall. intros u Hu.
  apply validate_links_spec in Hu as (raw & Hr & Hv).
  exists raw. split; [done|].
  apply validate_link_origin in Hv
    as [(-> & H) | [(-> & -> & H) | (-> & -> & H)]]; done.
Qed.

(* ===================================================================== *)
(** ** Further properties: the decoders of proxy links *)
(* ===================================================================== *)
Lemma split_once_lacks c : forall u,
  lacks c u = true -> split_once (String c "") u = (u, None).
Proof.
  induction u as [|a u IH]; intros H; [reflexivity|].
  unfold lacks in H. cbn [all_chars] in H.
  apply andb_true_iff in H as [Ha H].
  cbn [split_once]. rewrite startswith_char, (Ascii.eqb_sym c a).
  apply negb_true_iff in Ha. rewrite Ha. by rewrite (IH H).
Qed.

Lemma filter_chars_all p : forall u,
  all_chars p u = true -> filter_chars p u = u.
Proof.
  induction u as [|a u IH]; intros H; [reflexivity|].
  cbn [all_chars] in H. apply andb_true_iff in H as [Ha H].
  cbn [filter_chars]. by rewrite Ha, (IH H).
Qed.


Lemma plain_value_parts u :
  plain_value u = true ->
  truthy u = true
  /\ all_chars (fun c => negb (unsafe_byte c)) u = true
  /\ lacks "#" u = true /\ lacks "&" u = true.
Proof.
  unfold plain_value, lacks. intros H. apply andb_true_iff in H as [Ht H].
  split; [done|]. clear Ht.
  induction u as [|a u IH]; [done|].
  cbn [all_chars] in *. apply andb_true_iff in H as [Ha H].
  apply andb_true_iff in Ha as [Ha H3]. apply andb_true_iff in Ha as [H1 H2].
  destruct (IH H) as (I1 & I2 & I3).
  by rewrite H1, H2, H3, I1, I2, I3.
Qed.

Lemma urlparse_iqsaved u :
  plain_value u = true ->
  urlparse ("https://cdn.iqsaved.com/img2.php?url=" ++ u)
  = Some {| scheme := "https"; netloc := "cdn.iqsaved.com";
            path := "/img2.php"; query := "url=" ++ u; fragment := "" |}.
Proof.
  intros H. apply plain_value_parts in H as (Ht & Hu & Hh & Ha).
  unfold urlparse.
  simpl. change ("" ++ u) with u.
  rewrite (filter_chars_all _ u Hu), (split_once_lacks "#" u Hh).
  simpl. reflexivity.
Qed.

Lemma all_chars_app p : forall a b,
  all_chars p (a ++ b) = all_chars p a && all_chars p b.
Proof.
  induction a as [|c a IH]; intros b; [reflexivity|].
  change (String c a ++ b) with (String c (a ++ b)).
  cbn [all_chars]. by rewrite IH, andb_assoc.
Qed.

Lemma parse_qs_single name u :
  lacks "=" name = true -> lacks "&" name = true ->
  truthy u = true -> lacks "&" u = true ->
  first_value (parse_qs (name ++ "=" ++ u))
    (unquote (replace_char "+" " " name))
  = Some (unquote (replace_char "+" " " u)).
Proof.
  intros Hn1 Hn2 Ht Hu. unfold parse_qs, split.
  assert (Hl : lacks "&" (name ++ "=" ++ u) = true).
  { unfold lacks in *. rewrite !all_chars_app, Hn2, Hu. reflexivity. }
  rewrite (split_from_lacks "&" _ Hl). cbn [fold_left].
  unfold add_field, parse_field.
  assert (Hs : split_once "=" (name ++ "=" ++ u) = (name, Some u)).
  { clear -Hn1. unfold lacks in *. induction name as [|a n IH].
    - change (split_once "=" (String "=" u) = ("", Some u)).
      cbn [split_once]. rewrite startswith_char. reflexivity.
    - change (String a n ++ "=" ++ u) with (String a (n ++ "=" ++ u)).
      cbn [all_chars] in *.
      apply andb_true_iff in Hn1 as [Ha Hn1].
      cbn [split_once]. rewrite startswith_char.
      rewrite (Ascii.eqb_sym "=" a). apply negb_true_iff in Ha. rewrite Ha.
      by rewrite (IH Hn1). }
  rewrite Hs, Ht. rewrite lookup_empty.
  unfold first_value. by rewrite lookup_insert_eq.
Qed.

Lemma replace_char_lacks a b : forall u,
  lacks a u = true -> replace_char a b u = u.
Proof.
  induction u as [|c u IH]; intros H; [reflexivity|].
  unfold lacks in H. cbn [all_chars] in H.
  apply andb_true_iff in H as [Hc H]. apply negb_true_iff in Hc.
  cbn [replace_char]. by rewrite Hc, (IH H).
Qed.

Lemma unquote_lacks : forall u, lacks "%" u = true -> unquote u = u.
Proof.
  induction u as [|c u IH]; intros H; [reflexivity|].
  unfold lacks in H. cbn [all_chars] in H.
  apply andb_true_iff in H as [Hc H]. apply negb_true_iff in Hc.
  cbn [unquote]. by rewrite Hc, (IH H).
Qed.

Lemma lacks_contains c u : contains u (String c "") = false -> lacks c u = true.
Proof. rewrite contains_char. apply negb_false_iff. Qed.

(** X6.  For an IQSaved link [https://cdn.iqsaved.com/img2.php?url=U],
    where [U] is not empty and has no [&], [#], TAB, CR or LF,
    [extract_real_url] returns [U] with [+] read as a space and
    percent-decoded three times (once by [parse_qs], twice by the function);
    a [U] without [%] and [+] comes back as it is. *)
Theorem extract_real_url_parameter (u : string) :
  plain_value u = true ->
  extract_real_url ("https://cdn.iqsaved.com/img2.php?url=" ++ u)
  = unquote (unquote (unquote (replace_char "+" " " u)))
  /\ (contains u "%" = false -> contains u "+" = false ->
      extract_real_url ("https://cdn.iqsaved.com/img2.php?url=" ++ u) = u).
Proof.
  intros H.
  assert (He : extract_real_url ("https://cdn.iqsaved.com/img2.php?url=" ++ u)
               = unquote (unquote (unquote (replace_char "+" " " u)))).
  { unfold extract_real_url.
    assert (Hc : contains ("https://cdn.iqsaved.com/img2.php?url=" ++ u)
                   "img2.php?url=" = true).
    { simpl. by rewrite startswith_nil. }
    rewrite Hc, (urlparse_iqsaved u H). cbn [query].
    apply plain_value_parts in H as (Ht & Hu & Hh & Ha).
    pose proof (parse_qs_single "url" u eq_refl eq_refl Ht Ha) as Hq.
    change ("url" ++ "=" ++ u) with ("url=" ++ u) in Hq.
    change (unquote (replace_char "+" " " "url")) with "url" in Hq.
    by rewrite Hq. }
  split; [exact He|]. intros Hp Hplus. rewrite He.
  apply lacks_contains in Hp, Hplus.
  by rewrite (replace_char_lacks _ _ u Hplus), !(unquote_lacks u Hp).
Qed.

(** X6 at work: a plain URL, and a URL that was percent-encoded twice. *)
Lemma extract_real_url_parameter_witness :
  plain_value "https://cdninstagram.com/a.jpg" = true
  /\ extract_real_url
       ("https://cdn.iqsaved.com/img2.php?url="
          ++ "https://cdninstagram.com/a.jpg")
     = "https://cdninstagram.com/a.jpg"
  /\ extract_real_url
       ("https://cdn.iqsaved.com/img2.php?url="
          ++ "https%253A%252F%252Fcdninstagram.com%252Fa.jpg")
     = "https://cdninstagram.com/a.jpg".
Proof.
  split; [reflexivity|]. split.
  - apply (extract_real_url_parameter "https://cdninstagram.com/a.jpg");
      reflexivity.
  - rewrite (proj1 (extract_real_url_parameter
                      "https%253A%252F%252Fcdninstagram.com%252Fa.jpg"
                      eq_refl)).
    reflexivity.
Defined.

Lemma urlparse_anon_viewer u :
  plain_value u = true ->
  urlparse ("https://anon-viewer.com/media.php?media=" ++ u)
  = Some {| scheme := "https"; netloc := "anon-viewer.com";
            path := "/media.php"; query := "media=" ++ u; fragment := "" |}.
Proof.
  intros H. apply plain_value_parts in H as (Ht & Hu & Hh & Ha).
  unfold urlparse.
  simpl. change ("" ++ u) with u.
  rewrite (filter_chars_all _ u Hu), (split_once_lacks "#" u Hh).
  simpl. reflexivity.
Qed.

(** X7.  For a Mollygram link
    [https://anon-viewer.com/media.php?media=U], with [U] as in X6,
    [decode_mollygram_url] returns [U] with [+] read as a space and
    percent-decoded three times, and a fourth time when a [%] is left; a
    [U] without [%] and [+] comes back as it is. *)
Theorem decode_mollygram_url_parameter (u : string) :
  plain_value u = true ->
  decode_mollygram_url ("https://anon-viewer.com/media.php?media=" ++ u)
  = (let final_url := unquote (unquote (unquote (replace_char "+" " " u))) in
     Some (if contains final_url "%" then unquote final_url else final_url))
  /\ (contains u "%" = false -> contains u "+" = false ->
      decode_mollygram_url ("https://anon-viewer.com/media.php?media=" ++ u)
      = Some u).
Proof.
  intros H.
  assert (He : decode_mollygram_url
                 ("https://anon-viewer.com/media.php?media=" ++ u)
               = (let final_url :=
                    unquote (unquote (unquote (replace_char "+" " " u))) in
                  Some (if contains final_url "%" then unquote final_url
                        else final_url))).
  { unfold decode_mollygram_url.
    rewrite (urlparse_anon_viewer u H). cbn [query].
    apply plain_value_parts in H as (Ht & Hu & Hh & Ha).
    pose proof (parse_qs_single "media" u eq_refl eq_refl Ht Ha) as Hq.
    change ("media" ++ "=" ++ u) with ("media=" ++ u) in Hq.
    change (unquote (replace_char "+" " " "media")) with "media" in Hq.
    by rewrite Hq. }
  split; [exact He|]. intros Hp Hplus. rewrite He. cbv zeta.
  pose proof Hp as Hp'.
  apply lacks_contains in Hp', Hplus.
  rewrite (replace_char_lacks _ _ u Hplus), !(unquote_lacks u Hp').
  by rewrite Hp.
Qed.

(** X7 at work. *)
Lemma decode_mollygram_url_parameter_witness :
  plain_value "https://cdninstagram.com/a.jpg" = true
  /\ decode_mollygram_url
       ("https://anon-viewer.com/media.php?media="
          ++ "https://cdninstagram.com/a.jpg")
     = Some "https://cdninstagram.com/a.jpg".
Proof.
  split; [reflexivity|].
  apply (decode_mollygram_url_parameter "https://cdninstagram.com/a.jpg");
    reflexivity.
Defined.

(* ===================================================================== *)
(** ** Further properties: the chronological order *)
(* ===================================================================== *)


Lemma insert_dated_perm x l : Permutation (insert_dated x l) (x :: l).
Proof.
  induction l as [|y l IH]; simpl; [done|].
  destruct (key_leb x y); [done|].
  rewrite IH. apply perm_swap.
Qed.

Lemma sort_dated_perm l : Permutation (sort_dated l) l.
Proof.
  induction l as [|x l IH]; [done|].
  unfold sort_dated in *. simpl. rewrite insert_dated_perm. by constructor.
Qed.

Lemma dated_links_urls e l : forall i,
  map (fun d : Dated => d.1.1) (dated_links e i l) = l.
Proof.
  induction l as [|x l IH]; intros i; [done|].
  unfold dated_links in *. simpl. by rewrite IH.
Qed.

Lemma sort_links_unfold e links :
  (2 <= List.length links)%nat ->
  sort_links_chronologically e links
  = (map (fun d : Dated => d.1.1)
       (sort_dated (dated_links e 0 (firstn 100 links)))
       ++ skipn 100 links)%list.
Proof.
  destruct links as [|a [|b l]]; simpl; [lia|lia|]. reflexivity.
Qed.

Lemma sorted_part_length e links :
  List.length (map (fun d : Dated => d.1.1)
                 (sort_dated (dated_links e 0 (firstn 100 links))))
  = Nat.min 100 (List.length links).
Proof.
  rewrite length_map, (Permutation_length (sort_dated_perm _)).
  rewrite <- (length_map (fun d : Dated => d.1.1)), dated_links_urls.
  apply length_firstn.
Qed.

(** X8.  [sort_links_chronologically] neither loses nor invents a link: its
    result is a permutation of its argument; and the links after the first
    100 stay where they are. *)
Theorem sort_links_permutation (e : Env) (links : list string) :
  Permutation (sort_links_chronologically e links) links
  /\ skipn 100 (sort_links_chronologically e links) = skipn 100 links.
Proof.
  destruct (le_lt_dec 2 (List.length links)) as [Hl | Hl].
  - rewrite sort_links_unfold by done. split.
    + rewrite <- (firstn_skipn 100 links) at 3.
      apply Permutation_app_tail.
      rewrite (Permutation_map _ (sort_dated_perm _)).
      by rewrite dated_links_urls.
    + pose proof (sorted_part_length e links) as Hlen.
      rewrite skipn_app, Hlen.
      destruct (le_lt_dec 100 (List.length links)) as [H | H].
      * rewrite Nat.min_l by done. rewrite Nat.sub_diag. simpl.
        rewrite skipn_all2; [done|]. rewrite Hlen. lia.
      * rewrite Nat.min_r by lia.
        rewrite (skipn_all2 links) by lia.
        rewrite skipn_nil, app_nil_r. apply skipn_all2. rewrite Hlen. lia.
  - destruct links as [|a [|b l]]; simpl in *; [done|done|lia].
Qed.

(** Without dates nothing moves *)
Lemma sort_dated_undated e l : forall i,
  (forall u, In u l -> head_timestamp e u = None) ->
  sort_dated (dated_links e i l) = dated_links e i l.
Proof.
  induction l as [|x l IH]; intros i H; [done|].
  unfold sort_dated, dated_links in *. simpl.
  rewrite IH by (intros u Hu; apply H; by right).
  destruct l as [|y l]; [done|]. simpl.
  unfold key_leb. simpl.
  rewrite (H x) by (by left). rewrite (H y) by (right; by left).
  assert (Hi : (i <=? i + 1) = true) by (apply Z.leb_le; lia).
  by rewrite Hi.
Qed.

Lemma in_firstn {A} (x : A) : forall n l, In x (firstn n l) -> In x l.
Proof.
  induction n as [|n IH]; intros [|y l] H; simpl in *; try done.
  destruct H as [-> | H]; [by left|right]. by apply IH.
Qed.

(** X9.  When no link has a date, the order of the links is unchanged. *)
Theorem sort_links_without_dates (e : Env) (links : list string) :
  (forall u, In u links -> head_timestamp e u = None) ->
  sort_links_chronologically e links = links.
Proof.
  intros H.
  destruct (le_lt_dec 2 (List.length links)) as [Hl | Hl].
  - rewrite sort_links_unfold by done.
    rewrite sort_dated_undated, dated_links_urls.
    + apply firstn_skipn.
    + intros u Hu. apply H. by apply in_firstn in Hu.
  - destruct links as [|a [|b l]]; simpl in *; [done|done|lia].
Qed.

(** X9 at work: the HTTP probe finds no date. *)
Lemma sort_links_without_dates_witness :
  sort_links_chronologically quiet_env
    ["https://cdninstagram.com/b.jpg"; "https://cdninstagram.com/a.jpg";
     "https://cdninstagram.com/c.jpg"]
  = ["https://cdninstagram.com/b.jpg"; "https://cdninstagram.com/a.jpg";
     "https://cdninstagram.com/c.jpg"].
Proof.
  apply sort_links_without_dates. intros u _. reflexivity.
Defined.

(** The order of the sorted part *)
Lemma key_leb_total a b : key_leb a b = false -> key_leb b a = true.
Proof.
  unfold key_leb. destruct a as [[ua [da|]] ia], b as [[ub [db|]] ib]; simpl;
    try done.
  - intros H. apply orb_false_iff in H as [H1 H2].
    apply Z.ltb_ge in H1. apply orb_true_iff.
    destruct (Z.eq_dec da db) as [->|Hne].
    + right. rewrite Z.eqb_refl in *. simpl in *.
      apply Z.leb_gt in H2. apply Z.leb_le. lia.
    + left. apply Z.ltb_lt. lia.
  - intros H. apply Z.leb_gt in H. apply Z.leb_le. lia.
Qed.

Lemma key_leb_trans a b c :
  key_leb a b = true -> key_leb b c = true -> key_leb a c = true.
Proof.
  unfold key_leb.
  destruct a as [[ua [da|]] ia], b as [[ub [db|]] ib], c as [[uc [dc|]] ic];
    simpl; try done.
  - intros H1 H2.
    apply orb_true_iff in H1. apply orb_true_iff in H2. apply orb_true_iff.
    rewrite !andb_true_iff, !Z.ltb_lt, !Z.eqb_eq, !Z.leb_le in *. lia.
  - rewrite !Z.leb_le. lia.
Qed.

Lemma insert_dated_sorted x l :
  Sorted (fun a b => key_leb a b = true) l ->
  Sorted (fun a b => key_leb a b = true) (insert_dated x l).
Proof.
  induction 1 as [|y l Hs IH Hhd]; simpl.
  - repeat constructor.
  - destruct (key_leb x y) eqn:E.
    + constructor; [by constructor|]. by constructor.
    + constructor; [done|].
      destruct l as [|z l]; simpl.
      * constructor. by apply key_leb_total.
      * destruct (key_leb x z); constructor.
        -- by apply key_leb_total.
        -- by inversion Hhd.
Qed.

Lemma sort_dated_sorted l :
  StronglySorted (fun a b => key_leb a b = true) (sort_dated l).
Proof.
  apply Sorted_StronglySorted.
  - intros a b c. apply key_leb_trans.
  - induction l as [|x l IH]; [constructor|].
    unfold sort_dated in *. simpl. by apply insert_dated_sorted.
Qed.

Lemma dated_links_dates e l : forall i,
  Forall (fun d : Dated => d.1.2 = head_timestamp e d.1.1) (dated_links e i l).
Proof.
  induction l as [|x l IH]; intros i; [constructor|].
  unfold dated_links in *. simpl. constructor; [done|]. apply IH.
Qed.

Lemma sorted_urls e (l : list Dated) :
  Forall (fun d : Dated => d.1.2 = head_timestamp e d.1.1) l ->
  StronglySorted (fun a b => key_leb a b = true) l ->
  StronglySorted (not_older e) (map (fun d : Dated => d.1.1) l).
Proof.
  intros Hd Hs. induction Hs as [|a l Hs IH Hall]; simpl; [constructor|].
  inversion Hd as [|? ? Ha Hl]; subst.
  constructor; [by apply IH|].
  apply List.Forall_forall. intros u Hu.
  apply in_map_iff in Hu as (b & <- & Hb).
  pose proof (proj1 (List.Forall_forall _ _) Hall b Hb) as Hk.
  pose proof (proj1 (List.Forall_forall _ _) Hl b Hb) as Hdb.
  unfold not_older. rewrite <- Ha, <- Hdb.
  unfold key_leb in Hk.
  destruct (a.1.2) as [x|], (b.1.2) as [y|]; try done.
  apply orb_true_iff in Hk as [Hk | Hk].
  - apply Z.ltb_lt in Hk. lia.
  - apply andb_true_iff in Hk as [Hk _]. apply Z.eqb_eq in Hk. lia.
Qed.

(** X10.  Among the first 100 links of the result, every link is at least
    as new as every link after it, a link without a date counting as the
    newest (its key is minus infinity): the links without a date come
    first, then the dated ones from the newest to the oldest. *)
Theorem sort_links_newest_first (e : Env) (links : list string) :
  StronglySorted (not_older e)
    (firstn 100 (sort_links_chronologically e links)).
Proof.
  destruct (le_lt_dec 2 (List.length links)) as [Hl | Hl].
  - rewrite sort_links_unfold by done.
    pose proof (sorted_part_length e links) as Hlen.
    rewrite firstn_app, Hlen.
    assert (Ht : firstn (100 - Nat.min 100 (List.length links))
                   (skipn 100 links) = []).
    { destruct (le_lt_dec 100 (List.length links)) as [H | H].
      - rewrite Nat.min_l by done. by rewrite Nat.sub_diag.
      - rewrite skipn_all2 by lia. apply firstn_nil. }
    rewrite Ht, app_nil_r, firstn_all2 by (rewrite Hlen; lia).
    apply sorted_urls.
    + eapply Permutation_Forall; [symmetry; apply sort_dated_perm|].
      apply dated_links_dates.
    + apply sort_dated_sorted.
  - destruct links as [|a [|b l]]; simpl in *; [constructor| |lia].
    repeat constructor.
Qed.

(* ===================================================================== *)
(** ** Further properties: the health tracker and the clean-up *)
(* ===================================================================== *)

Lemma track_failure_runs site status s :
  total_runs_of (snd (track_failure site status s)) = total_runs_of s + 1
  /\ successful_runs_of (snd (track_failure site status s))
     = successful_runs_of s + (if String.eqb status "SUCCESS" then 1 else 0).
Proof.
  unfold track_failure, total_runs_of, successful_runs_of.
  destruct (in_list status resetting_statuses) eqn:Hin; simpl.
  - split; [reflexivity|]. destruct (String.eqb status "SUCCESS"); lia.
  - split; [reflexivity|].
    destruct (String.eqb status "SUCCESS") eqn:Heq; [|lia].
    apply String.eqb_eq in Heq. subst status. discriminate Hin.
Qed.

Lemma track_failure_ok site status s :
  tracker_ok s -> tracker_ok (snd (track_failure site status s)).
Proof.
  intros [Hr Hc]. split.
  - destruct (track_failure_runs site status s) as [-> ->].
    destruct (String.eqb status "SUCCESS"); lia.
  - intros site'.
    destruct (track_failure_runs site status s) as [-> _].
    destruct (decide (site = site')) as [<-|Hne].
    + destruct (track_failure_counter site status s) as [-> _].
      unfold next_counter. specialize (Hc site).
      destruct (in_list status resetting_statuses); lia.
    + rewrite track_failure_other by done. specialize (Hc site'). lia.
Qed.

Lemma tracker_ok_fresh s : failure_file s = None -> tracker_ok s.
Proof.
  intros H. unfold tracker_ok, successful_runs_of, total_runs_of,
    load_failure_data, get_consecutive_fails. rewrite H. simpl. split; [lia|].
  intros _. lia.
Qed.

(** [tracker_ok] depends on the tracker file only *)
Lemma tracker_ok_file s s' :
  failure_file s' = failure_file s -> tracker_ok s -> tracker_ok s'.
Proof.
  unfold tracker_ok, successful_runs_of, total_runs_of, load_failure_data,
    get_consecutive_fails. by intros ->.
Qed.

(** X11.  The counters of the tracker file stay sound: without a file they
    are, and every recorded outcome, and so every sequence of them, keeps
    [0 <= successful_runs <= total_runs] and every counter of consecutive
    failures between 0 and [total_runs]. *)
Theorem tracker_counters_sound :
  (forall s, failure_file s = None -> tracker_ok s)
  /\ (forall site status s,
        tracker_ok s -> tracker_ok (snd (track_failure site status s)))
  /\ (forall site statuses s,
        tracker_ok s -> tracker_ok (snd (record_all site statuses s))).
Proof.
  split; [apply tracker_ok_fresh|]. split; [apply track_failure_ok|].
  intros site statuses. induction statuses as [|st rest IH]; intros s H;
    [done|].
  simpl. destruct (track_failure site st s) as [n s1] eqn:E1.
  destruct (record_all site rest s1) as [ns s2] eqn:E2. simpl.
  specialize (IH s1). rewrite E2 in IH. apply IH.
  pose proof (track_failure_ok site st s H) as H1. by rewrite E1 in H1.
Qed.

(** X12.  For a base between 15000 and 60000 ms, as the bases 25000 and
    30000 of the program, the adaptive timeout is between 15000 and 60000
    ms, whatever the tracker file holds. *)
Theorem adaptive_timeout_bounds site base s :
  15000 <= base <= 60000 ->
  15000 <= get_adaptive_timeout site base s <= 60000.
Proof.
  intros H. unfold get_adaptive_timeout.
  destruct (3 <=? get_consecutive_fails site s) eqn:E1.
  - apply Z.leb_le in E1. lia.
  - destruct (get_consecutive_fails site s =? 0); lia.
Qed.

(** X12 at work: Mollygram after three failures, base 30000. *)
Lemma adaptive_timeout_bounds_witness :
  15000 <= get_adaptive_timeout "Mollygram" 30000 (after_failures 3) <= 60000.
Proof. apply adaptive_timeout_bounds. lia. Defined.

(** Cleaning up the logs *)
Lemma prune_failures_counters s :
  (forall site,
     get_consecutive_fails site (prune_failures s)
     = get_consecutive_fails site s)
  /\ total_runs_of (prune_failures s) = total_runs_of s
  /\ successful_runs_of (prune_failures s) = successful_runs_of s.
Proof.
  unfold prune_failures, total_runs_of, successful_runs_of, load_failure_data,
    get_consecutive_fails.
  destruct (failure_file s) as [f|] eqn:E; [|by rewrite E].
  destruct (decide _); [by rewrite E|]. simpl. done.
Qed.


Lemma cleanup_old_logs_spec (days_to_keep : Z) (s : Sys) :
  (forall site,
     get_consecutive_fails site (cleanup_old_logs days_to_keep s)
     = if tracker_stale days_to_keep s then 0
       else get_consecutive_fails site s)
  /\ total_runs_of (cleanup_old_logs days_to_keep s)
     = (if tracker_stale days_to_keep s then 0 else total_runs_of s)
  /\ successful_runs_of (cleanup_old_logs days_to_keep s)
     = (if tracker_stale days_to_keep s then 0 else successful_runs_of s).
Proof.
  unfold cleanup_old_logs, tracker_stale.
  set (cutoff := now s - days_to_keep * 86400).
  set (s1 := match failure_file s with
             | Some f => if ff_mtime f <? cutoff then set_failure_file None s
                         else s
             | None => s end).
  set (s2 := if nonempty (error_log s1) && (error_log_mtime s1 <? cutoff)
             then remove_error_log s1 else s1).
  assert (H2 : failure_file s2 = failure_file s1).
  { unfold s2. by destruct (nonempty (error_log s1) && _). }
  assert (H1 : failure_file s1
               = match failure_file s with
                 | Some f => if ff_mtime f <? cutoff then None else Some f
                 | None => None end).
  { unfold s1. destruct (failure_file s) as [f|] eqn:E; [|done].
    by destruct (ff_mtime f <? cutoff). }
  destruct (prune_failures_counters s2) as (Hg & Ht & Hs).
  split; [|split].
  - intros site. rewrite Hg. unfold get_consecutive_fails.
    rewrite H2, H1. destruct (failure_file s) as [f|]; [|done].
    by destruct (ff_mtime f <? cutoff).
  - rewrite Ht. unfold total_runs_of, load_failure_data. rewrite H2, H1.
    destruct (failure_file s) as [f|]; [|done].
    by destruct (ff_mtime f <? cutoff).
  - rewrite Hs. unfold successful_runs_of, load_failure_data. rewrite H2, H1.
    destruct (failure_file s) as [f|]; [|done].
    by destruct (ff_mtime f <? cutoff).
Qed.

(** X13.  [cleanup_old_logs] forgets the health state exactly when the
    tracker file has not been modified for [days_to_keep] days: then every
    counter of consecutive failures and both run counters read 0 afterwards;
    otherwise they are all as before (pruning old failure events does not
    touch them). *)
Theorem cleanup_old_logs_counters (days_to_keep : Z) (s : Sys) :
  (forall site,
     get_consecutive_fails site (cleanup_old_logs days_to_keep s)
     = if tracker_stale days_to_keep s then 0
       else get_consecutive_fails site s)
  /\ total_runs_of (cleanup_old_logs days_to_keep s)
     = (if tracker_stale days_to_keep s then 0 else total_runs_of s)
  /\ successful_runs_of (cleanup_old_logs days_to_keep s)
     = (if tracker_stale days_to_keep s then 0 else successful_runs_of s).
Proof. apply cleanup_old_logs_spec. Qed.

(* ===================================================================== *)
(** ** Further properties: the source adapters *)
(* ===================================================================== *)
Lemma in_list_In x l : in_list x l = true <-> In x l.
Proof.
  unfold in_list. rewrite existsb_exists. split.
  - intros (y & Hy & E). apply String.eqb_eq in E. by subst.
  - intros H. exists x. split; [done|]. apply String.eqb_refl.
Qed.

Lemma collect_insta_spec els : forall unique links,
  collect_insta els unique = Ok links ->
  NoDup unique -> Forall (fun h => startswith h "http" = true) unique ->
  NoDup links /\ Forall (fun h => startswith h "http" = true) links.
Proof.
  induction els as [|[[h|]|e] els IH]; intros unique links H Hn Hf;
    simpl in H.
  - by injection H as <-.
  - destruct (truthy h && startswith h "http" && negb (in_list h unique))
      eqn:E; [|by eapply IH].
    apply andb_true_iff in E as [E E3]. apply andb_true_iff in E as [_ E2].
    apply negb_true_iff in E3.
    eapply IH; [exact H| |].
    + apply NoDup_app. split; [done|]. split; [|apply NoDup_singleton].
      intros x Hx Hx'. apply list_elem_of_singleton in Hx'. subst x.
      apply list_elem_of_In, in_list_In in Hx. congruence.
    + apply Forall_app. split; [done|]. by constructor.
  - by eapply IH.
  - done.
Qed.

Lemma check_instasaved_spec (s : Sys) :
  exists links status error_details,
    check_instasaved s
    = (Ok (links, status, error_details),
       record "Instasaved" status (snd (visit_insta s)))
    /\ In status ["SUCCESS"; "NO_LINKS"; "HTTP_ERROR"; "CRASH"]
    /\ (status = "SUCCESS" <-> links <> [])
    /\ NoDup links
    /\ Forall (fun h => startswith h "http" = true) links.
Proof.
  unfold check_instasaved. destruct (visit_insta s) as [page s1]. cbv zeta.
  cbn [snd].
  repeat case_match; subst;
    (eexists _, _, _; split; [reflexivity|]);
    (split; [simpl; tauto|]);
    try (split; [split; [discriminate|done]|];
         split; [apply NoDup_nil_2|apply Forall_nil_2]).
  split; [done|].
  match goal with H : collect_insta _ _ = Ok _ |- _ =>
    apply collect_insta_spec in H;
      [done|apply NoDup_nil_2|apply Forall_nil_2] end.
Qed.

(** X15.  [check_instasaved] never raises; it records in the health tracker
    exactly one outcome, the status that it returns, which is one of
    SUCCESS, NO_LINKS, HTTP_ERROR and CRASH; the status is SUCCESS exactly
    when links are returned; the links have no duplicates and start with
    [http]. *)
Theorem check_instasaved_outcome (s : Sys) :
  exists links status error_details,
    check_instasaved s
    = (Ok (links, status, error_details),
       record "Instasaved" status (snd (visit_insta s)))
    /\ In status ["SUCCESS"; "NO_LINKS"; "HTTP_ERROR"; "CRASH"]
    /\ (status = "SUCCESS" <-> links <> [])
    /\ NoDup links
    /\ Forall (fun h => startswith h "http" = true) links.
Proof. apply check_instasaved_spec. Qed.

Lemma check_iqsaved_spec (s : Sys) :
  exists links status error_details,
    check_iqsaved s
    = (Ok (links, status, error_details),
       record "IQSaved" status (snd (visit_iq s)))
    /\ In status ["SUCCESS"; "NO_LINKS"; "HTTP_ERROR"; "CRASH"]
    /\ (status = "SUCCESS" <-> links <> []).
Proof.
  unfold check_iqsaved. destruct (visit_iq s) as [page s1]. cbv zeta.
  cbn [snd].
  repeat case_match; subst;
    (eexists _, _, _; split; [reflexivity|]);
    (split; [simpl; tauto|]);
    split; done.
Qed.

(** X16.  [check_iqsaved] never raises; it records in the health tracker
    exactly one outcome, the status that it returns, which is one of
    SUCCESS, NO_LINKS, HTTP_ERROR and CRASH; the status is SUCCESS exactly
    when links are returned. *)
Theorem check_iqsaved_outcome (s : Sys) :
  exists links status error_details,
    check_iqsaved s
    = (Ok (links, status, error_details),
       record "IQSaved" status (snd (visit_iq s)))
    /\ In status ["SUCCESS"; "NO_LINKS"; "HTTP_ERROR"; "CRASH"]
    /\ (status = "SUCCESS" <-> links <> []).
Proof. apply check_iqsaved_spec. Qed.

Lemma check_storiesviewer_spec (s : Sys) :
  exists links status error_details,
    check_storiesviewer s
    = (Ok (links, status, error_details),
       record "StoriesViewer" status (snd (visit_viewer s)))
    /\ In status ["SUCCESS"; "NO_LINKS"; "TIMEOUT"; "NO_STORIES";
                  "SERVER_UNAVAILABLE"; "INPUT_ERROR"; "HTTP_ERROR"; "CRASH"]
    /\ (status = "SUCCESS" ->
        links <> [] /\ exists found, links = validate_links found)
    /\ (links <> [] -> status = "SUCCESS" \/ status = "CRASH").
Proof.
  unfold check_storiesviewer. destruct (visit_viewer s) as [page s1]. cbv zeta.
  cbn [snd].
  repeat case_match; simplify_eq;
    (eexists _, _, _; split; [reflexivity|]);
    (split; [simpl; tauto|]);
    try (split; [done|intros Hne; first [by destruct Hne|auto]]; fail).
  all: split; [|auto]; intros _; split; [done|]; eauto.
Qed.

(** X17.  [check_storiesviewer] never raises; it records in the health
    tracker exactly one outcome, the status that it returns; with the
    status SUCCESS it returns at least one link, and the links are an output
    of [validate_links]; links come with the status SUCCESS, or with CRASH
    when reading the elements of the page broke off. *)
Theorem check_storiesviewer_outcome (s : Sys) :
  exists links status error_details,
    check_storiesviewer s
    = (Ok (links, status, error_details),
       record "StoriesViewer" status (snd (visit_viewer s)))
    /\ In status ["SUCCESS"; "NO_LINKS"; "TIMEOUT"; "NO_STORIES";
                  "SERVER_UNAVAILABLE"; "INPUT_ERROR"; "HTTP_ERROR"; "CRASH"]
    /\ (status = "SUCCESS" ->
        links <> [] /\ exists found, links = validate_links found)
    /\ (links <> [] -> status = "SUCCESS" \/ status = "CRASH").
Proof. apply check_storiesviewer_spec. Qed.



Lemma molly_attempts_spec remaining : forall attempt max_retries s,
  exists links status error_details s1,
    molly_attempts remaining attempt max_retries s
    = (Ok (links, status, error_details),
       if String.eqb status "SUCCESS"
       then record "Mollygram" "SUCCESS" s1 else s1)
    /\ same_tracker s s1
    /\ In status ["SUCCESS"; "NO_STORIES"; "NO_LINKS"]
    /\ (links <> [] -> status = "SUCCESS")
    /\ (molly_visits s <= molly_visits s1 <= molly_visits s + remaining)%nat.
Proof.
  induction remaining as [|r IH]; intros attempt max_retries s.
  - exists [], "NO_LINKS", (Note "Nessun link trovato dopo i tentativi"), s.
    simpl. unfold same_tracker. split; [done|]. split; [done|].
    split; [tauto|]. split; [done|]. lia.
  - cbn [molly_attempts]. unfold visit_molly. cbn [feed_next].
    set (s' := set_browser _ s).
    assert (Hs : same_tracker s s') by done.
    assert (Hv : molly_visits s' = S (molly_visits s)) by reflexivity.
    destruct (IH (attempt + 1) max_retries s')
      as (l & st & d & s1 & Hn & (H1 & H2 & H3 & H4) & Hst & Hl & Hvis).
    assert (Hnext : exists links status error_details s1,
      molly_attempts r (attempt + 1) max_retries s'
      = (Ok (links, status, error_details),
         if String.eqb status "SUCCESS"
         then record "Mollygram" "SUCCESS" s1 else s1)
      /\ same_tracker s s1
      /\ In status ["SUCCESS"; "NO_STORIES"; "NO_LINKS"]
      /\ (links <> [] -> status = "SUCCESS")
      /\ (molly_visits s <= molly_visits s1 <= molly_visits s + S r)%nat).
    { exists l, st, d, s1. split; [done|].
      destruct Hs as (G1 & G2 & G3 & G4).
      split; [unfold same_tracker; repeat split; congruence|].
      split; [done|]. split; [done|]. lia. }
    assert (Hhere : forall (links : list string) status
                      (error_details : Detail),
      In status ["SUCCESS"; "NO_STORIES"; "NO_LINKS"] ->
      (links <> [] -> status = "SUCCESS") ->
      exists links0 status0 error_details0 s1,
        (Ok (links, status, error_details),
         if String.eqb status "SUCCESS"
         then record "Mollygram" "SUCCESS" s' else s')
        = (Ok (links0, status0, error_details0),
           if String.eqb status0 "SUCCESS"
           then record "Mollygram" "SUCCESS" s1 else s1)
        /\ same_tracker s s1
        /\ In status0 ["SUCCESS"; "NO_STORIES"; "NO_LINKS"]
        /\ (links0 <> [] -> status0 = "SUCCESS")
        /\ (molly_visits s <= molly_visits s1 <= molly_visits s + S r)%nat).
    { intros links status dd Hin Hlk. exists links, status, dd, s'.
      split; [done|]. split; [done|]. split; [done|]. split; [done|]. lia. }
    clear Hn.
    repeat case_match; simplify_eq; try exact Hnext.
    all: first
      [ apply (Hhere _ "SUCCESS" _); [simpl; tauto|done]
      | apply (Hhere [] "NO_STORIES" _); [simpl; tauto|done] ].
Qed.

(** X14.  [check_mollygram] never raises and visits the site at most three
    times; its status is SUCCESS, NO_STORIES or NO_LINKS, and links come
    with SUCCESS only.  It tells the health tracker of a success and of
    nothing else: unless the status is SUCCESS, the tracker file and the
    error log are left as they were, so that a failure of Mollygram never
    counts as a consecutive failure. *)
Theorem check_mollygram_tracking (s : Sys) :
  exists links status error_details s1,
    check_mollygram s
    = (Ok (links, status, error_details),
       if String.eqb status "SUCCESS"
       then record "Mollygram" "SUCCESS" s1 else s1)
    /\ same_tracker s s1
    /\ In status ["SUCCESS"; "NO_STORIES"; "NO_LINKS"]
    /\ (links <> [] -> status = "SUCCESS")
    /\ (molly_visits s <= molly_visits s1 <= molly_visits s + 3)%nat.
Proof. apply molly_attempts_spec. Qed.


Lemma record_browser site status s :
  browser (record site status s) = browser s.
Proof.
  unfold record, track_failure.
  by destruct (in_list status resetting_statuses).
Qed.

Lemma check_storiesviewer_visits s :
  viewer_visits (snd (check_storiesviewer s)) = S (viewer_visits s).
Proof.
  destruct (check_storiesviewer_spec s) as (l & st & d & -> & _).
  cbn [snd]. unfold viewer_visits. rewrite record_browser. reflexivity.
Qed.


Lemma retry_viewer_attempts_spec remaining : forall attempt max_retries s,
  viewer_result_ok (fst (retry_viewer_attempts remaining attempt max_retries s))
  /\ (viewer_visits s
      <= viewer_visits
           (snd (retry_viewer_attempts remaining attempt max_retries s))
      <= viewer_visits s + remaining)%nat
  /\ (remaining <> 0%nat ->
      (viewer_visits s
       < viewer_visits
           (snd (retry_viewer_attempts remaining attempt max_retries s)))%nat).
Proof.
  induction remaining as [|r IH]; intros attempt max_retries s.
  - simpl. split; [tauto|]. split; [lia|done].
  - cbn [retry_viewer_attempts].
    pose proof (check_storiesviewer_visits s) as Hv.
    destruct (check_storiesviewer_spec s)
      as (l & st & d & Hc & Hst & Hsucc & Hlinks).
    rewrite Hc in Hv |- *. cbn [snd] in Hv.
    set (s1 := record "StoriesViewer" st (snd (visit_viewer s))) in *.
    destruct (IH (attempt + 1) max_retries s1) as (I1 & I2 & _).
    destruct (nonempty l || in_list st ["NO_STORIES"; "SERVER_UNAVAILABLE"])
      eqn:E.
    + cbn [fst snd]. split; [|split; [lia|lia]].
      unfold viewer_result_ok. destruct (nonempty l) eqn:En.
      * apply Hlinks. by destruct l.
      * cbn [orb] in E. apply in_list_In in E. simpl in *. tauto.
    + repeat case_match; cbn [fst snd]; simpl; try done;
        (split; [done|split; [lia|lia]]).
Qed.

(** X18.  [retry_storiesviewer] with [max_retries >= 0] visits the site at
    least once and at most [max_retries + 1] times; what it returns is
    links with the status SUCCESS (or CRASH), or no links with one of the
    statuses NO_STORIES, SERVER_UNAVAILABLE and ALL_RETRIES_FAILED: the
    statuses NO_LINKS, TIMEOUT, HTTP_ERROR and INPUT_ERROR of an attempt
    never come out. *)
Theorem retry_storiesviewer_result (max_retries : Z) (s : Sys) :
  0 <= max_retries ->
  viewer_result_ok (fst (retry_storiesviewer max_retries s))
  /\ (viewer_visits s < viewer_visits (snd (retry_storiesviewer max_retries s))
      <= viewer_visits s + Z.to_nat (max_retries + 1))%nat.
Proof.
  intros H. unfold retry_storiesviewer.
  destruct (retry_viewer_attempts_spec (Z.to_nat (max_retries + 1)) 0
              max_retries s) as (H1 & H2 & H3).
  split; [done|]. split; [apply H3; lia|lia].
Qed.

(** X18 at work: storiesviewer.net answers with HTTP 500 at every visit. *)
Lemma retry_storiesviewer_result_witness :
  viewer_result_ok (fst (retry_storiesviewer 3 (fresh_sys all_down)))
  /\ (viewer_visits (fresh_sys all_down)
      < viewer_visits (snd (retry_storiesviewer 3 (fresh_sys all_down)))
      <= viewer_visits (fresh_sys all_down) + Z.to_nat (3 + 1))%nat.
Proof. apply retry_storiesviewer_result. lia. Defined.

(* ===================================================================== *)
(** ** Further properties: a run *)
(* ===================================================================== *)



(** *** The safe wrappers *)

Lemma attempt_source_safe (func : Operation Result) w links status d :
  fst (op_run func (sys w)) = Ok (links, status, d) ->
  attempt_source func w = (Ok (links, status), after_call func w).
Proof.
  intros H. unfold attempt_source, try_catch, bind, retry_with_backoff.
  change (Z.to_nat (1 + 1)) with 2%nat.
  rewrite retry_attempts_step, H. reflexivity.
Qed.

Lemma record_ok site status s :
  tracker_ok s -> tracker_ok (record site status s).
Proof. apply track_failure_ok. Qed.

Lemma visit_ok s :
  (tracker_ok s -> tracker_ok (snd (visit_molly s)))
  /\ (tracker_ok s -> tracker_ok (snd (visit_viewer s)))
  /\ (tracker_ok s -> tracker_ok (snd (visit_insta s)))
  /\ (tracker_ok s -> tracker_ok (snd (visit_iq s))).
Proof.
  split; [|split; [|split]]; intros H; by apply (tracker_ok_file s).
Qed.

Lemma safe_mollygram s :
  exists links status d s',
    safe_check_mollygram s = (Ok (links, status, d), s')
    /\ (nonempty links = true -> status = "SUCCESS")
    /\ (tracker_ok s -> tracker_ok s').
Proof.
  unfold safe_check_mollygram, safe_check.
  change (check_mollygram s) with (molly_attempts 3 0 3 s).
  destruct (molly_attempts_spec 3 0 3 s)
    as (l & st & d & s1 & -> & (H1 & H2 & H3 & H4) & _ & Hl & _).
  eexists l, st, d, _. split; [reflexivity|]. split.
  - intros Hn. apply Hl. by destruct l.
  - intros Hok. assert (Hok1 : tracker_ok s1) by by apply (tracker_ok_file s).
    destruct (String.eqb st "SUCCESS"); [by apply record_ok|done].
Qed.

Lemma retry_viewer_attempts_ok remaining : forall attempt max_retries s,
  tracker_ok s ->
  tracker_ok (snd (retry_viewer_attempts remaining attempt max_retries s)).
Proof.
  induction remaining as [|r IH]; intros attempt max_retries s Hok; [done|].
  cbn [retry_viewer_attempts].
  destruct (check_storiesviewer_spec s) as (l & st & d & -> & _).
  assert (H1 : tracker_ok (record "StoriesViewer" st (snd (visit_viewer s)))).
  { apply record_ok. by apply visit_ok. }
  pose proof (IH (attempt + 1) max_retries _ H1) as H2.
  repeat case_match; cbn [snd]; done.
Qed.

Lemma safe_storiesviewer s :
  exists links status d s',
    safe_check_storiesviewer s = (Ok (links, status, d), s')
    /\ in_list status no_links_statuses = false
    /\ (tracker_ok s -> tracker_ok s').
Proof.
  unfold safe_check_storiesviewer, safe_check.
  pose proof (retry_viewer_attempts_spec (Z.to_nat (3 + 1)) 0 3 s)
    as [Hr _].
  fold (retry_storiesviewer 3 s) in Hr.
  pose proof (retry_viewer_attempts_ok (Z.to_nat (3 + 1)) 0 3 s) as Hok.
  fold (retry_storiesviewer 3 s) in Hok.
  destruct (retry_storiesviewer 3 s) as [[[[l st] d]|e] s'].
  - exists l, st, d, s'. split; [reflexivity|]. split; [|done].
    simpl in Hr. destruct (nonempty l).
    + by destruct Hr as [-> | ->].
    + simpl in Hr. by destruct Hr as [<- | [<- | [<- | []]]].
  - eexists [], "FATAL_ERROR", _, s'. split; [reflexivity|]. done.
Qed.

Lemma safe_instasaved s :
  exists links status d s',
    safe_check_instasaved s = (Ok (links, status, d), s')
    /\ (tracker_ok s -> tracker_ok s').
Proof.
  unfold safe_check_instasaved, safe_check.
  destruct (check_instasaved_spec s) as (l & st & d & -> & _).
  eexists l, st, d, _. split; [reflexivity|].
  intros H. apply record_ok. by apply visit_ok.
Qed.

Lemma safe_iqsaved s :
  exists links status d s',
    safe_check_iqsaved s = (Ok (links, status, d), s')
    /\ (tracker_ok s -> tracker_ok s').
Proof.
  unfold safe_check_iqsaved, safe_check.
  destruct (check_iqsaved_spec s) as (l & st & d & -> & _).
  eexists l, st, d, _. split; [reflexivity|].
  intros H. apply record_ok. by apply visit_ok.
Qed.

(** One phase of the chain, for an operation that does not raise. *)
Lemma attempt_source_phase (func : Operation Result) w links status d s' :
  op_run func (sys w) = (Ok (links, status, d), s') ->
  (tracker_ok (sys w) -> tracker_ok s') ->
  exists w',
    attempt_source func w = (Ok (links, status), w')
    /\ trace w' = (trace w ++ [EvCall (op_name func)])%list
    /\ (tracker_ok (sys w) -> tracker_ok (sys w')).
Proof.
  intros E Hok. exists (after_call func w).
  split; [apply (attempt_source_safe func w links status d); by rewrite E|].
  split; [reflexivity|].
  unfold after_call. cbn [sys]. by rewrite E.
Qed.

(** The fallback chain, now that the wrappers are known not to raise. *)
Lemma fallback_chain_calls (w : World) :
  exists c w',
    fallback_chain w = (Ok c, w')
    /\ trace w' = (trace w ++ map EvCall (attempted c))%list
    /\ (nonempty (links_molly c) = true -> molly_status c = "SUCCESS")
    /\ (nonempty (links_molly c) = false ->
        in_list (storiesviewer_status c) no_links_statuses = false)
    /\ (tracker_ok (sys w) -> tracker_ok (sys w')).
Proof.
  unfold fallback_chain, bind.
  destruct (safe_mollygram (sys w)) as (l1 & s1 & d1 & y1 & E1 & Hm & Ok1).
  destruct (attempt_source_phase op_mollygram w l1 s1 d1 y1 E1 Ok1)
    as (w1 & -> & T1 & K1).
  clear E1 Ok1 y1.
  destruct (nonempty l1) eqn:N1; cbn [negb andb].
  { unfold ret. eexists _, _. split; [reflexivity|].
    unfold attempted. cbn [links_molly molly_status]. rewrite N1.
    split; [exact T1|]. split; [done|]. split; [done|]. exact K1. }
  destruct (safe_storiesviewer (sys w1)) as (l2 & s2 & d2 & y2 & E2 & Hv & Ok2).
  destruct (attempt_source_phase op_storiesviewer w1 l2 s2 d2 y2 E2 Ok2)
    as (w2 & -> & T2 & K2).
  clear E2 Ok2 y2.
  destruct (nonempty l2) eqn:N2; cbn [negb andb].
  { unfold ret. eexists _, _. split; [reflexivity|].
    unfold attempted.
    cbn [links_molly molly_status links_viewer storiesviewer_status].
    rewrite N1, N2. split; [rewrite T2, T1; by rewrite <- app_assoc|].
    split; [done|]. split; [done|]. auto. }
  destruct (safe_instasaved (sys w2)) as (l3 & s3 & d3 & y3 & E3 & Ok3).
  destruct (attempt_source_phase op_instasaved w2 l3 s3 d3 y3 E3 Ok3)
    as (w3 & -> & T3 & K3).
  clear E3 Ok3 y3.
  destruct (nonempty l3) eqn:N3; cbn [negb andb].
  { unfold ret. eexists _, _. split; [reflexivity|].
    unfold attempted.
    cbn [links_molly molly_status links_viewer storiesviewer_status
         links_insta].
    rewrite N1, N2, N3.
    split; [rewrite T3, T2, T1; by rewrite <- !app_assoc|].
    split; [done|]. split; [done|]. auto. }
  destruct (safe_iqsaved (sys w3)) as (l4 & s4 & d4 & y4 & E4 & Ok4).
  destruct (attempt_source_phase op_iqsaved w3 l4 s4 d4 y4 E4 Ok4)
    as (w4 & -> & T4 & K4).
  clear E4 Ok4 y4.
  unfold ret. eexists _, _. split; [reflexivity|].
  unfold attempted.
  cbn [links_molly molly_status links_viewer storiesviewer_status links_insta].
  rewrite N1, N2, N3.
  split; [rewrite T4, T3, T2, T1; by rewrite <- !app_assoc|].
  split; [done|]. split; [done|]. auto.
Qed.

Lemma cleanup_ok days s : tracker_ok s -> tracker_ok (cleanup_old_logs days s).
Proof.
  intros [H1 H2].
  destruct (cleanup_old_logs_spec days s) as (Hc & Ht & Hs).
  unfold tracker_ok. rewrite Ht, Hs. split.
  - destruct (tracker_stale days s); lia.
  - intros site. rewrite Hc. specialize (H2 site).
    destruct (tracker_stale days s); lia.
Qed.

(** [run], with the invocations of the sources made explicit. *)
Lemma run_calls (w : World) :
  exists rep,
    fst (run w) = Ok rep
    /\ new_events w (snd (run w))
       = (map EvCall (attempted (chain rep))
            ++ deliveries_of w (storie_da_processare rep)
            ++ alert_events (chain rep))%list
    /\ storie_da_processare rep
       = new_stories (set_of (load_history w)) (tutti_i_link rep)
    /\ ids_to_add rep = ids_of (storie_da_processare rep)
    /\ history_file (snd (run w))
       = saved_history w (load_history w) (ids_to_add rep)
    /\ (nonempty (links_molly (chain rep)) = true ->
        molly_status (chain rep) = "SUCCESS")
    /\ (nonempty (links_molly (chain rep)) = false ->
        in_list (storiesviewer_status (chain rep)) no_links_statuses = false)
    /\ (tracker_ok (sys w) -> tracker_ok (sys (snd (run w)))).
Proof.
  set (w0 := set_sys (cleanup_old_logs 7 (sys w)) w).
  destruct (fallback_chain_calls w0) as (c & w1 & Hc & Ht & Hm & Hv & Hok).
  destruct (fallback_chain_spec w0) as (c' & w1' & evs & Hc' & [Hh He] & _).
  rewrite Hc in Hc'. injection Hc' as <- <-.
  assert (Hrun : run w
     = (Ok (report_of w c),
        {| sys := sys w1;
           history_file :=
             saved_history w (load_history w) (ids_of (stories_of w c));
           env := env w;
           trace := (trace w ++ map EvCall (attempted c)
                       ++ deliveries_of w (stories_of w c)
                       ++ alert_events c)%list |})).
  { unfold run, bind at 1, modify_sys, try_catch, run_body.
    unfold bind at 1. unfold ask at 1. cbv beta iota.
    unfold bind at 1. fold w0. rewrite Hc.
    simpl in Hh, He, Ht.
    unfold bind at 1. unfold ask at 1. cbv beta iota.
    unfold bind at 1. rewrite delivery_phase_spec.
    unfold bind at 1. rewrite save_history_spec.
    unfold bind at 1. rewrite health_check_spec.
    unfold ret, report_of, stories_of, candidates_of, ids_of, deliveries_of,
      flood, load_history, saved_history, set_history, add_events. simpl.
    rewrite He, Hh, Ht. simpl. rewrite <- !app_assoc. reflexivity. }
  exists (report_of w c). rewrite Hrun. cbn [fst snd].
  split; [done|]. split; [by apply new_events_app|].
  split; [done|]. split; [done|]. split; [done|].
  split; [done|]. split; [done|].
  intros H. cbn [sys]. apply Hok. unfold w0. cbn [sys set_sys].
  by apply cleanup_ok.
Qed.

(** *** The invocations of a run *)

Lemma filter_calls_map l :
  List.filter (fun e => is_call e || is_sleep e) (map EvCall l) = map EvCall l.
Proof. induction l as [|x l IH]; simpl; [done|]. by rewrite IH. Qed.

Lemma filter_calls_deliveries e items : forall i n,
  List.filter (fun e => is_call e || is_sleep e) (delivery_events e i n items)
  = [].
Proof.
  induction items as [|item rest IH]; intros i n; simpl; [done|].
  destruct (skipped item); simpl; apply IH.
Qed.

(** X19.  In a run the sources are invoked in the order of their priority,
    each at most once, up to and including the first that brings links; the
    retry executor never invokes a source a second time and never pauses,
    because the wrappers [safe_check_*] do not raise. *)
Theorem run_invokes_sources_once (w : World) :
  exists rep,
    fst (run w) = Ok rep
    /\ List.filter (fun e => is_call e || is_sleep e)
         (new_events w (snd (run w)))
       = map EvCall (attempted (chain rep)).
Proof.
  destruct (run_calls w) as (rep & Hrun & Hev & _).
  exists rep. split; [done|]. rewrite Hev, !List.filter_app.
  rewrite filter_calls_map.
  assert (H1 : List.filter (fun e => is_call e || is_sleep e)
                 (deliveries_of w (storie_da_processare rep)) = []).
  { unfold deliveries_of. destruct (flood _); [done|].
    apply filter_calls_deliveries. }
  assert (H2 : List.filter (fun e => is_call e || is_sleep e)
                 (alert_events (chain rep)) = []).
  { unfold alert_events. by destruct (negb _ && negb _). }
  by rewrite H1, H2, !app_nil_r.
Qed.

(** The critical alert of a run: the statuses are never all of the "nothing
    found" kind, so the alert goes out exactly when no source has succeeded
    with links. *)
Lemma run_alert_rule (w : World) :
  exists rep,
    fst (run w) = Ok rep
    /\ all_no_links (chain rep) = false
    /\ alerted w = negb (any_success (chain rep)).
Proof.
  destruct (run_calls w) as (rep & Hrun & _ & _ & _ & _ & Hm & Hv & _).
  exists rep. split; [done|].
  assert (Hno : all_no_links (chain rep) = false).
  { unfold all_no_links.
    destruct (nonempty (links_molly (chain rep))).
    - by rewrite (Hm eq_refl).
    - change ["NO_LINKS"; "NOT_TESTED"; "SKIPPED_SUCCESS"]
        with no_links_statuses.
      rewrite (Hv eq_refl). by rewrite andb_false_r. }
  split; [exact Hno|].
  rewrite (alerted_rule w rep Hrun), Hno. by destruct (any_success (chain rep)).
Qed.

(** C5 (the code misses it).  The statuses with which the sources of a run
    end are never all of the kind that the health check takes for "nothing
    found": StoriesViewer is tried whenever Mollygram brings no link, and
    [retry_storiesviewer] gives its NO_LINKS away as ALL_RETRIES_FAILED.  So
    the branch of the health check that keeps quiet when nothing was found
    is never taken, and in every run the critical alert goes out exactly
    when no source has ended with SUCCESS and links.  Three runs show it:
    - mollygram.com does not load, storiesviewer.net reports that its
      server is unavailable, instasaved.net and iqsaved.com show no link:
      every status is in the benign set of the specification, no source
      has a link, and the alert is sent;
    - every site answers and shows nothing: the alert is sent;
    - storiesviewer.net shows a story and then breaks off: the story is
      delivered, and the alert is sent. *)
Theorem critical_alert_when_nothing_found :
  (exists rep,
     fst (run (world_of nothing_found None)) = Ok rep
     /\ chain rep
        = chain_of "NO_LINKS" "SERVER_UNAVAILABLE" "NO_LINKS" "NO_LINKS"
     /\ spec_alert_condition (chain rep) = false
     /\ alerted (world_of nothing_found None) = true)
  /\ (exists rep,
        fst (run (world_of quiet_sites None)) = Ok rep
        /\ chain rep
           = chain_of "NO_LINKS" "ALL_RETRIES_FAILED" "NO_LINKS" "NO_LINKS"
        /\ alerted (world_of quiet_sites None) = true)
  /\ (exists rep,
        fst (run (world_of viewer_crash None)) = Ok rep
        /\ links_viewer (chain rep) = [canonical_example]
        /\ storiesviewer_status (chain rep) = "CRASH"
        /\ spec_alert_condition (chain rep) = false
        /\ existsb is_delivery
             (new_events (world_of viewer_crash None)
                (snd (run (world_of viewer_crash None)))) = true
        /\ alerted (world_of viewer_crash None) = true)
  /\ (forall w,
        exists rep,
          fst (run w) = Ok rep
          /\ all_no_links (chain rep) = false
          /\ alerted w = negb (any_success (chain rep))).
Proof.
  split; [|split; [|split]].
  - eexists. split; [vm_compute; reflexivity|].
    repeat split; vm_compute; reflexivity.
  - eexists. split; [vm_compute; reflexivity|].
    repeat split; vm_compute; reflexivity.
  - eexists. split; [vm_compute; reflexivity|].
    repeat split; vm_compute; reflexivity.
  - apply run_alert_rule.
Qed.

(** *** The ids that a run delivers *)

Lemma delivered_ids_app evs1 evs2 :
  delivered_ids (evs1 ++ evs2)
  = (delivered_ids evs1 ++ delivered_ids evs2)%list.
Proof. apply omap_app. Qed.

Lemma delivered_ids_calls l : delivered_ids (map EvCall l) = [].
Proof. induction l as [|x l IH]; [done|]. exact IH. Qed.

Lemma delivered_ids_alert c : delivered_ids (alert_events c) = [].
Proof. unfold alert_events. by destruct (negb _ && negb _). Qed.

Lemma delivered_ids_events e items : forall i n,
  delivered_ids (delivery_events e i n items) = sent_ids items.
Proof.
  induction items as [|item rest IH]; intros i n; [done|].
  unfold sent_ids in *. simpl. destruct (skipped item); simpl.
  - apply IH.
  - unfold delivered_ids in *. simpl. f_equal. apply IH.
Qed.

Lemma delivered_ids_run w :
  exists rep,
    fst (run w) = Ok rep
    /\ storie_da_processare rep
       = new_stories (set_of (load_history w)) (tutti_i_link rep)
    /\ history_file (snd (run w))
       = saved_history w (load_history w) (ids_of (storie_da_processare rep))
    /\ delivered_ids (new_events w (snd (run w)))
       = if flood (storie_da_processare rep) then []
         else sent_ids (storie_da_processare rep).
Proof.
  destruct (run_calls w) as (rep & Hrun & Hev & Hst & Hids & Hh & _).
  exists rep. split; [done|]. split; [done|]. split; [by rewrite <- Hids|].
  rewrite Hev, !delivered_ids_app, delivered_ids_calls, delivered_ids_alert.
  rewrite app_nil_r. simpl. unfold deliveries_of.
  destruct (flood _); [done|]. apply delivered_ids_events.
Qed.

Lemma new_stories_ids links : forall seen : gset string,
  NoDup (map story_id (new_stories seen links))
  /\ Forall (fun id => (id ∉ seen) /\ truthy id = true)
       (map story_id (new_stories seen links)).
Proof.
  induction links as [|url rest IH]; intros seen; simpl.
  - split; [apply NoDup_nil_2|constructor].
  - destruct (truthy (get_clean_id url)
              && negb (bool_decide (get_clean_id url ∈ seen))) eqn:E.
    + apply andb_true_iff in E as [Et En].
      apply negb_true_iff, bool_decide_eq_false in En.
      destruct (IH (set_add (get_clean_id url) seen)) as [H1 H2].
      simpl. split.
      * apply NoDup_cons. split; [|done]. intros Hin.
        apply (proj1 (Forall_forall _ _) H2) in Hin as [Hin _].
        apply Hin. rewrite set_add_union. apply elem_of_union. left.
        by apply elem_of_singleton.
      * constructor; [done|]. eapply Forall_impl; [exact H2|].
        intros id [Hid Ht]. split; [|done]. intros Hs. apply Hid.
        rewrite set_add_union. apply elem_of_union. by right.
    + apply IH.
Qed.

Lemma sent_ids_sublist items : sublist (sent_ids items) (map story_id items).
Proof.
  induction items as [|item rest IH]; [constructor|].
  unfold sent_ids in *. simpl. destruct (skipped item); simpl.
  - by apply sublist_cons.
  - by apply sublist_skip.
Qed.

(** X20.  A run delivers no clean id twice: the ids of the stories that
    it sends to Telegram are pairwise distinct. *)
Theorem run_delivers_each_id_once (w : World) :
  NoDup (delivered_ids (new_events w (snd (run w)))).
Proof.
  destruct (delivered_ids_run w) as (rep & _ & Hst & _ & ->).
  destruct (flood _); [apply NoDup_nil_2|].
  eapply sublist_NoDup; [|apply sent_ids_sublist].
  rewrite Hst. apply new_stories_ids.
Qed.

(** *** The ledger that a run leaves *)


Lemma lstrip_no_space s : no_space s = true -> lstrip s = s.
Proof.
  destruct s as [|c s]; [done|]. unfold no_space. simpl.
  intros H. apply andb_true_iff in H as [Hc _].
  apply negb_true_iff in Hc. by rewrite Hc.
Qed.

Lemma rstrip_no_space s : no_space s = true -> rstrip s = s.
Proof.
  unfold no_space. induction s as [|c s IH]; [done|].
  cbn [all_chars rstrip]. intros H. apply andb_true_iff in H as [Hc H].
  apply negb_true_iff in Hc. rewrite (IH H), Hc. by destruct s.
Qed.

Lemma strip_no_space s : no_space s = true -> strip s = s.
Proof.
  intros H. unfold strip. rewrite (lstrip_no_space s H).
  by apply rstrip_no_space.
Qed.

Lemma sent_ids_length items :
  (List.length (sent_ids items) <= List.length items)%nat.
Proof.
  unfold sent_ids. rewrite length_map. apply List.filter_length_le.
Qed.

Lemma in_saved_history w seen ids id :
  disk_space_ok (env w) = true ->
  (List.length ids <= MAX_HISTORY)%nat ->
  In id ids -> truthy (strip id) = true ->
  exists lines, saved_history w seen ids = Some lines /\ In id lines.
Proof.
  intros Hd Hlen Hin Ht. unfold saved_history. rewrite Hd.
  destruct ids as [|x ids']; [done|]. cbn [nonempty andb].
  eexists. split; [reflexivity|].
  apply filter_In. split; [|done].
  destruct (MAX_HISTORY <? _)%nat.
  - by apply in_last_entries.
  - apply in_app_iff. by right.
Qed.

Lemma in_load_history w lines id :
  history_file w = Some lines -> In id lines -> truthy (strip id) = true ->
  In (strip id) (load_history w).
Proof.
  intros Hh Hin Ht. unfold load_history. rewrite Hh.
  apply filter_In. split; [|done]. apply in_map_iff. eauto.
Qed.

(** X21.  What a run delivers, the next run knows: when the disk-space
    check passes, the clean id of a story that a run has sent, provided it
    holds no white space, is in the ledger that the run leaves, and a run
    that starts from that ledger does not send a story with that id. *)
Theorem delivered_ids_not_delivered_again (w w2 : World) (id : string) :
  disk_space_ok (env w) = true ->
  history_file w2 = history_file (snd (run w)) ->
  In id (delivered_ids (new_events w (snd (run w)))) ->
  no_space id = true ->
  In id (load_history (snd (run w)))
  /\ ~ In id (delivered_ids (new_events w2 (snd (run w2)))).
Proof.
  intros Hd Hh Hin Hns.
  destruct (delivered_ids_run w) as (rep & _ & Hst & Hsave & Hdel).
  rewrite Hdel in Hin. unfold ids_of in Hsave.
  destruct (flood (storie_da_processare rep)) eqn:Hf; [done|].
  assert (Htr : truthy id = true).
  { pose proof (sent_ids_sublist (storie_da_processare rep)) as Hsub.
    apply list_elem_of_In in Hin.
    apply (fun H => elem_of_sublist _ _ _ H Hsub) in Hin.
    rewrite Hst in Hin.
    destruct (new_stories_ids (tutti_i_link rep) (set_of (load_history w)))
      as [_ Hall].
    apply (proj1 (Forall_forall _ _) Hall) in Hin. tauto. }
  assert (Hlen : (List.length (sent_ids (storie_da_processare rep))
                  <= MAX_HISTORY)%nat).
  { pose proof (sent_ids_length (storie_da_processare rep)).
    unfold flood, SOGLIA_ALLUVIONE in Hf. apply Z.ltb_ge in Hf.
    unfold MAX_HISTORY. lia. }
  assert (Hstrip : strip id = id) by by apply strip_no_space.
  destruct (in_saved_history w (load_history w) _ id Hd Hlen Hin)
    as (lines & Hl & Hil); [by rewrite Hstrip|].
  rewrite Hl in Hsave.
  assert (Hseen : In id (load_history (snd (run w)))).
  { rewrite <- Hstrip. eapply in_load_history; eauto. by rewrite Hstrip. }
  split; [done|]. intros Hin2.
  assert (Hseen2 : In id (load_history w2)).
  { unfold load_history in *. by rewrite Hh. }
  destruct (delivered_ids_run w2) as (rep2 & _ & Hst2 & _ & Hdel2).
  rewrite Hdel2 in Hin2.
  destruct (flood (storie_da_processare rep2)); [done|].
  pose proof (sent_ids_sublist (storie_da_processare rep2)) as Hsub.
  apply list_elem_of_In in Hin2.
  apply (fun H => elem_of_sublist _ _ _ H Hsub) in Hin2.
  rewrite Hst2 in Hin2.
  destruct (new_stories_ids (tutti_i_link rep2) (set_of (load_history w2)))
    as [_ Hall].
  apply (proj1 (Forall_forall _ _) Hall) in Hin2 as [Hn _].
  apply Hn. by apply elem_of_set_of.
Qed.

Lemma three_stories_delivered :
  In "s0.jpg"
    (delivered_ids (new_events three_stories (snd (run three_stories)))).
Proof. vm_compute. auto. Qed.

Lemma next_run_ledger :
  history_file next_run = history_file (snd (run three_stories)).
Proof. reflexivity. Qed.

(** X21 at work: of the three stories on Mollygram the first run sends
    [s0.jpg]; a second run on the same site, from the ledger left, does
    not. *)
Lemma delivered_ids_not_delivered_again_witness :
  In "s0.jpg" (load_history (snd (run three_stories)))
  /\ ~ In "s0.jpg" (delivered_ids (new_events next_run (snd (run next_run)))).
Proof.
  apply (delivered_ids_not_delivered_again three_stories next_run "s0.jpg").
  - reflexivity.
  - exact next_run_ledger.
  - exact three_stories_delivered.
  - reflexivity.
Defined.





(** X23.  When the disk-space check fails, a run leaves the ledger as it
    found it, whatever it has delivered. *)
Theorem ledger_untouched_without_disk_space (w : World) :
  disk_space_ok (env w) = false -> history_after w = history_file w.
Proof.
  intros Hd. unfold history_after.
  destruct (delivered_ids_run w) as (rep & _ & _ & -> & _).
  unfold saved_history. by rewrite Hd, andb_false_r.
Qed.

Lemma full_disk_delivers :
  existsb is_delivery (new_events full_disk (snd (run full_disk))) = true.
Proof. vm_compute. reflexivity. Qed.

(** X23 at work: three stories on Mollygram and a full disk; stories are
    sent and the ledger stays as it was. *)
Lemma ledger_untouched_without_disk_space_witness :
  existsb is_delivery (new_events full_disk (snd (run full_disk))) = true
  /\ history_after full_disk = history_file full_disk.
Proof.
  split; [exact full_disk_delivers|].
  apply ledger_untouched_without_disk_space. reflexivity.
Defined.

(** X24.  A run keeps the counters of the tracker file sound (see X11),
    through the clean-up of the logs and every outcome that the adapters
    record. *)
Theorem run_keeps_tracker_sound (w : World) :
  tracker_ok (sys w) -> tracker_ok (sys (snd (run w))).
Proof.
  destruct (run_calls w) as (rep & _ & _ & _ & _ & _ & _ & _ & H). exact H.
Qed.

(** X24 at work: a run that starts without a tracker file. *)
Lemma run_keeps_tracker_sound_witness :
  tracker_ok (sys (snd (run quiet_world))).
Proof.
  apply run_keeps_tracker_sound. apply tracker_ok_fresh. reflexivity.
Defined.

(** *** The links unified from the sources *)

Lemma add_links_safe_spec source_links :
  forall (acc : list string * gset string),
  NoDup (map get_clean_id acc.1) ->
  (forall u, In u acc.1 -> get_clean_id u ∈ acc.2) ->
  let acc' := add_links_safe source_links acc in
  NoDup (map get_clean_id acc'.1)
  /\ (forall u, In u acc'.1 -> get_clean_id u ∈ acc'.2)
  /\ (forall u, In u acc'.1 ->
        In u acc.1 \/ (In u source_links /\ truthy (get_clean_id u) = true)).
Proof.
  induction source_links as [|url rest IH]; intros [l seen] Hn Hs; simpl.
  - split; [done|]. split; [done|]. auto.
  - simpl in Hn, Hs.
    destruct (truthy (get_clean_id url)
              && negb (bool_decide (get_clean_id url ∈ seen))) eqn:E.
    + apply andb_true_iff in E as [Et En].
      apply negb_true_iff, bool_decide_eq_false in En.
      destruct (IH ((l ++ [url])%list, set_add (get_clean_id url) seen))
        as (H1 & H2 & H3).
      * simpl. rewrite map_app. simpl. apply NoDup_app. split; [done|].
        split; [|apply NoDup_singleton].
        intros x Hx Hx'. apply list_elem_of_singleton in Hx'. subst x.
        apply list_elem_of_In, in_map_iff in Hx as (u & Hu & Hin).
        apply En. rewrite <- Hu. by apply Hs.
      * simpl. intros u Hu. rewrite set_add_union. apply elem_of_union.
        apply in_app_iff in Hu as [Hu | [<- | []]].
        -- right. by apply Hs.
        -- left. by apply elem_of_singleton.
      * split; [done|]. split; [done|]. intros u Hu.
        destruct (H3 u Hu) as [Hin | [Hin Ht]].
        -- simpl in Hin. apply in_app_iff in Hin as [Hin | [<- | []]];
             [by left|right]. split; [by left|done].
        -- right. split; [by right|done].
    + destruct (IH (l, seen) Hn Hs) as (H1 & H2 & H3).
      split; [done|]. split; [done|]. intros u Hu.
      destruct (H3 u Hu) as [Hin | [Hin Ht]]; [by left|right].
      split; [by right|done].
Qed.

(** X25.  The links unified from the four sources have pairwise distinct,
    non-empty clean ids, and each of them is a link of one of the
    sources. *)
Theorem unify_keeps_one_link_per_id (c : Chain) :
  NoDup (map get_clean_id (unify c))
  /\ Forall (fun u =>
               truthy (get_clean_id u) = true
               /\ (In u (links_molly c) \/ In u (links_viewer c)
                   \/ In u (links_insta c) \/ In u (links_iq c)))
       (unify c).
Proof.
  unfold unify.
  destruct (add_links_safe_spec (links_molly c) ([], ∅))
    as (A1 & A2 & A3); [apply NoDup_nil_2|done|].
  destruct (add_links_safe_spec (links_viewer c) _ A1 A2) as (B1 & B2 & B3).
  destruct (add_links_safe_spec (links_insta c) _ B1 B2) as (C1 & C2 & C3).
  destruct (add_links_safe_spec (links_iq c) _ C1 C2) as (D1 & D2 & D3).
  cbv zeta in *. split; [done|].
  apply List.Forall_forall. intros u Hu.
  destruct (D3 u Hu) as [Hu3 | [Hin Ht]]; [|by auto 6].
  destruct (C3 u Hu3) as [Hu2 | [Hin Ht]]; [|by auto 6].
  destruct (B3 u Hu2) as [Hu1 | [Hin Ht]]; [|by auto 6].
  destruct (A3 u Hu1) as [[] | [Hin Ht]]. by auto 6.
Qed.
